(** * goseq: the master-server query client (master.go)

    A shallow embedding of [master.go]: the request encoder
    [makerequest], the response decoder [wireMasterResponse.Decode],
    the single bounded transaction [try] and the failover loop of
    [Query], followed by the properties of the query engine.

    Conventions.
    - A Go [string] is a [string] (a sequence of bytes); a [[]byte] is a
      [list byte].
    - A Go [int] is a [Z] kept in the 64-bit signed range by [wrap_int].
    - A Go [error] value is an [option error], [None] being [nil]; a
      slice result that may be [nil] is an [option (list _)].
    - The network is an oracle: one [net_event] per call of [try], in
      the order of the calls.  The loop of [Query] recurses on that
      list, so an exhausted list ([None]) stands for a run that would
      need more answers from the network than were supplied. *)

From Stdlib Require Import ZArith List Bool Lia.
From Stdlib.Strings Require Import String Ascii Byte.
From Stdlib Require Import DecimalString DecimalN.
Import ListNotations.

Local Open Scope Z_scope.

(** ** Basic types *)

(** [type Region byte] *)
Definition Region := byte.

Definition USEast : Region := x00.
Definition USWest : Region := x01.
Definition SouthAmerica : Region := x02.
Definition Europe : Region := x03.
Definition Asia : Region := x04.
Definition Australia : Region := x05.
Definition MiddleEast : Region := x06.
Definition Africa : Region := x07.
Definition RestOfWorld : Region := xff.

Definition Beggining : string := "0.0.0.0:0".

Definition masterRespHeaderLength : nat := 6.

Definition MasterSourceServers : list string :=
  [ "68.177.101.62:27011";
    "69.28.158.131:27011";
    "208.64.200.117:27011";
    "208.64.200.118:27011" ]%string.

(** Initial value of the package variable [favored_server]. *)
Definition favored_server_init : Z := 2.

Definition masterResponseHeader : list byte := [xff; xff; xff; xff; x66; x0a].

(** The errors [Query] can hand back.  [err_timeout] is the package's own
    sentinel; everything the [net] package reports is a [NetError], which
    is never equal to the sentinel; [EOF] and [ErrUnexpectedEOF] are the
    two values [io.ReadFull] produces on a short read. *)
Inductive error : Type :=
| err_timeout
| NetError (msg : string)
| EOF
| ErrUnexpectedEOF.

(** The part of the [Filter] interface the client uses. *)
Record Filter : Type := { GetFilterFormat : list byte }.

(** [iserver], the implementation of [Server] built by [Query]. *)
Record iserver : Type := { iserver_addr : string }.
Definition Server := iserver.

(** [binary.ByteOrder]; the package's [byteOrder] variable is declared in
    another file and is taken as a parameter of [Decode]. *)
Inductive ByteOrder : Type := LittleEndian | BigEndian.

(** A Go call either comes back with a value or panics. *)
Inductive result (A : Type) : Type :=
| Ok (a : A)
| Panic (msg : string).
Arguments Ok {A} a.
Arguments Panic {A} msg.

(** ** Go [int] arithmetic *)

Definition wrap_int (z : Z) : Z := (z + 2 ^ 63) mod 2 ^ 64 - 2 ^ 63.

(** ** The client *)

(** [remoteAddr] and [remoteConn] are pointers; [None] is [nil], and a
    live value is represented by the address text it was made from. *)
Record master : Type := {
  filter : Filter;
  addr : string;
  master_index : Z;
  region : Region;
  remoteAddr : option string;
  remoteConn : option string
}.

Definition set_remoteAddr (v : option string) (m : master) : master :=
  {| filter := filter m; addr := addr m; master_index := master_index m;
     region := region m; remoteAddr := v; remoteConn := remoteConn m |}.

Definition set_remoteConn (v : option string) (m : master) : master :=
  {| filter := filter m; addr := addr m; master_index := master_index m;
     region := region m; remoteAddr := remoteAddr m; remoteConn := v |}.

Definition set_master_index (v : Z) (m : master) : master :=
  {| filter := filter m; addr := addr m; master_index := v;
     region := region m; remoteAddr := remoteAddr m;
     remoteConn := remoteConn m |}.

Definition set_addr (v : string) (m : master) : master :=
  {| filter := filter m; addr := v; master_index := master_index m;
     region := region m; remoteAddr := remoteAddr m;
     remoteConn := remoteConn m |}.

(** Indexing a slice with a Go [int]; [None] is the run-time panic. *)
Definition index {A : Type} (l : list A) (i : Z) : option A :=
  if (i <? 0) || (Z.of_nat (List.length l) <=? i) then None
  else nth_error l (Z.to_nat i).

(** [NewMasterServer]; [NewFilter()] lives in another file and is passed
    in.  [None] is the index panic. *)
Definition NewMasterServer (pool : list string) (favored_server : Z)
    (newFilter : Filter) : option master :=
  match index pool favored_server with
  | None => None
  | Some a =>
      Some {| filter := newFilter; addr := a; master_index := favored_server;
              region := USWest; remoteAddr := None; remoteConn := None |}
  end.

Definition SetFilter (f : Filter) (m : master) : master :=
  {| filter := f; addr := addr m; master_index := master_index m;
     region := region m; remoteAddr := remoteAddr m;
     remoteConn := remoteConn m |}.
Definition GetFilter (m : master) : Filter := filter m.
Definition SetAddr (i : string) (m : master) : master :=
  set_remoteAddr None (set_addr i m).
Definition GetAddr (m : master) : string := addr m.
Definition SetRegion (i : Region) (m : master) : master :=
  {| filter := filter m; addr := addr m; master_index := master_index m;
     region := i; remoteAddr := remoteAddr m; remoteConn := remoteConn m |}.
Definition GetRegion (m : master) : Region := region m.

(** ** Request encoding *)

(** [bytes.Buffer] as used by [makerequest]: writes append. *)
Module Buffer.
Definition t := list byte.
Definition NewBuffer (b : list byte) : t := b.
Definition WriteByte (c : byte) (b : t) : t := b ++ [c].
Definition WriteString (s : string) (b : t) : t :=
  b ++ list_byte_of_string s.
Definition Bytes (b : t) : list byte := b.
End Buffer.

Definition makerequest (m : master) (ip : string) : list byte :=
  let packet := Buffer.NewBuffer [] in
  let packet := Buffer.WriteByte x31 packet in
  let packet := Buffer.WriteByte (region m) packet in
  let packet := Buffer.WriteString ip packet in
  let packet := Buffer.WriteByte x00 packet in
  let packet :=
    Buffer.WriteString (string_of_list_byte (GetFilterFormat (filter m)))
                       packet in
  Buffer.Bytes packet.

(** ** Wire format of the response *)

Record wireIP : Type := {
  o1 : byte; o2 : byte; o3 : byte; o4 : byte;
  (** the 16 bits as they were laid out by [binary.Read] *)
  port : N
}.

(** [%d] of a non-negative number. *)
Definition fmt_d (n : N) : string := NilZero.string_of_uint (N.to_uint n).

(** [fmt.Sprintf("%d.%d.%d.%d:%d", ...)] *)
Definition wireIP_String (p : wireIP) : string :=
  (fmt_d (Byte.to_N (o1 p)) ++ "." ++ fmt_d (Byte.to_N (o2 p)) ++ "." ++
   fmt_d (Byte.to_N (o3 p)) ++ "." ++ fmt_d (Byte.to_N (o4 p)) ++ ":" ++
   fmt_d (port p))%string.

Record wireMasterResponse : Type := {
  head_magic : list byte;
  ips : list wireIP
}.

(** The zero value [wireMasterResponse{}]. *)
Definition wireMasterResponse_zero : wireMasterResponse :=
  {| head_magic := repeat x00 masterRespHeaderLength; ips := [] |}.

(** [io.ReadFull] on a [bytes.Buffer] holding [packet]: the [k] bytes and
    the rest, or [EOF] when nothing could be read and [ErrUnexpectedEOF]
    when the data ran out part-way. *)
Definition io_ReadFull (packet : list byte) (k : nat)
    : (list byte * list byte) + error :=
  if (k <=? List.length packet)%nat then inl (firstn k packet, skipn k packet)
  else match packet with
       | [] => inr EOF
       | _ :: _ => inr ErrUnexpectedEOF
       end.

(** Storing through [reflect] into a struct field: [Value.SetUint] and
    its siblings refuse a value reached through an unexported field. *)
Definition reflect_set_field {A : Type} (exported : bool) (v : A)
    : result A :=
  if exported then Ok v
  else Panic "reflect: reflect.Value.SetUint using value obtained using unexported field".

(** The field [magic] of [wireMasterResponse.head] starts with a lower-case
    letter. *)
Definition head_magic_exported : bool := false.

(** [binary.Read(packet, byteOrder, &r.head)].  The target is a pointer to
    a struct holding one [[6]byte]: its size is six, so six bytes are
    read with [io.ReadFull] and a short packet is reported as an error
    before anything is stored.  The bytes are then stored into the
    struct field by field through [reflect]; single bytes have no byte
    order.  ([encoding/binary]: when reading into a struct, all
    non-blank fields must be exported or Read may panic.) *)
Definition binary_Read_head (byteOrder : ByteOrder) (packet : list byte)
    (r : wireMasterResponse)
    : result (wireMasterResponse * list byte * option error) :=
  match io_ReadFull packet masterRespHeaderLength with
  | inr e => Ok (r, [], Some e)
  | inl (bs, rest) =>
      match reflect_set_field head_magic_exported bs with
      | Panic msg => Panic msg
      | Ok magic => Ok ({| head_magic := magic; ips := ips r |}, rest, None)
      end
  end.

(** [wireMasterResponse.Decode]: the receiver after the call, what is left
    unread in the packet, and the error. *)
Definition Decode (byteOrder : ByteOrder) (r : wireMasterResponse)
    (packet : list byte)
    : result (wireMasterResponse * list byte * option error) :=
  match binary_Read_head byteOrder packet r with
  | Panic msg => Panic msg
  | Ok (r, rest, Some e) => Ok (r, rest, Some e)
  | Ok (r, rest, None) => Ok (r, rest, None)
  end.

(** ** One transaction *)

(** What the outside world does to one call of [try].  The two goroutines
    of [try] are not modelled one by one: the event says which message the
    [select] receives.  [TimerFires] is the timer winning while the
    exchange is blocked in its read; [StageFails] is the exchange sending
    the error of the named call on [done]; [Datagram] is the exchange
    sending [nil] after reading that datagram.  The exchange is taken to
    have run up to its blocking read when the timer fires, and what an
    abandoned exchange does after its [try] has returned is left out.
    A [Resolve] or [Dial] failure offered to a client whose handles are
    cached is passed on as the error of the exchange. *)
Inductive stage : Type := Resolve | Dial | Write | Read.

Inductive net_event : Type :=
| TimerFires
| StageFails (s : stage) (msg : string)
| Datagram (data : list byte).

Definition needs_refresh (m : master) : bool :=
  match remoteAddr m, remoteConn m with
  | Some _, Some _ => false
  | _, _ => true
  end.

(** [refreshConnection]: resolve and dial [m.addr] unless both handles are
    cached. *)
Definition refreshConnection (ev : net_event) (m : master)
    : master * option error :=
  if needs_refresh m then
    match ev with
    | StageFails Resolve msg =>
        (set_remoteAddr None m, Some (NetError msg))
    | StageFails Dial msg =>
        (set_remoteAddr None
           (set_remoteConn None (set_remoteAddr (Some (addr m)) m)),
         Some (NetError msg))
    | _ =>
        (set_remoteConn (Some (addr m)) (set_remoteAddr (Some (addr m)) m),
         None)
    end
  else (m, None).

(** Length of [respbuffer]. *)
Definition respbuffer_len : Z := 1024 * 1024 * 2.

(** The first [n] bytes of [l] (all of it when it is shorter). *)
Fixpoint take (n : Z) (l : list byte) : list byte :=
  match l with
  | [] => []
  | b :: l' => if n <=? 0 then [] else b :: take (n - 1) l'
  end.

(** [try]: the client after the call, the error, and [buffer[0:n]], the
    bytes the read left in the buffer ([n] is their number). *)
Definition try (ev : net_event) (m : master) (request : list byte)
    : master * option error * list byte :=
  match refreshConnection ev m with
  | (m, Some e) => (m, Some e, [])
  | (m, None) =>
      match ev with
      | TimerFires => (m, Some err_timeout, [])
      | StageFails _ msg => (m, Some (NetError msg), [])
      | Datagram data => (m, None, take respbuffer_len data)
      end
  end.

(** ** Query *)

(** One call of [try] as seen from outside: the pool index and target
    address of the client when the call was made, the connection the
    exchange ran on, and the request handed over. *)
Record attempt : Type := {
  att_index : Z;
  att_addr : string;
  att_conn : option string;
  att_request : list byte
}.

(** The client together with the package variable [favored_server] and
    the calls of [try] made so far (oldest first). *)
Record state : Type := {
  cli : master;
  favored_server : Z;
  attempts : list attempt
}.

Inductive loop_result : Type :=
| LoopReturn (e : error)          (* [return nil, e] *)
| LoopBreak (packet : list byte)  (* [break], with [respbuffer[0:n]] *)
| LoopPanic (msg : string).

(** The text of the panic on [l[i]] with [i] outside [0 .. len(l) - 1]. *)
Definition index_panic (i len : Z) : string :=
  if i <? 0 then
    ("runtime error: index out of range ["
       ++ NilZero.string_of_int (Z.to_int i) ++ "]")%string
  else
    ("runtime error: index out of range ["
       ++ NilZero.string_of_int (Z.to_int i) ++ "] with length "
       ++ NilZero.string_of_int (Z.to_int len))%string.

Inductive loop_step : Type :=
| Continue (st : state)
| Exit (r : loop_result) (st : state).

Definition with_cli (m : master) (log : list attempt) (st : state) : state :=
  {| cli := m; favored_server := favored_server st; attempts := log |}.

(** The body of the [for] loop of [Query], run against the event [ev]. *)
Definition Query_iter (pool : list string) (reqpacket : list byte)
    (start_indice : Z) (ev : net_event) (st : state) : loop_step :=
  let m0 := cli st in
  let '(m, e, packet) := try ev m0 reqpacket in
  let log := attempts st ++
             [{| att_index := master_index m0; att_addr := addr m0;
                 att_conn := remoteConn m; att_request := reqpacket |}] in
  match e with
  | Some err_timeout =>
      let len := Z.of_nat (List.length pool) in
      if len =? 0 then
        Exit (LoopPanic "runtime error: integer divide by zero")
             (with_cli m log st)
      else
        let m := set_master_index
                   (Z.rem (wrap_int (master_index m + 1)) len) m in
        match index pool (master_index m) with
        | None =>
            Exit (LoopPanic (index_panic (master_index m) len))
                 (with_cli m log st)
        | Some a =>
            let m := set_addr a m in
            if master_index m =? start_indice then
              (* we've come full circle, time to quit. *)
              Exit (LoopReturn err_timeout) (with_cli m log st)
            else
              Continue {| cli := set_remoteAddr None m;
                          favored_server := master_index m;
                          attempts := log |}
        end
  | Some e => Exit (LoopReturn e) (with_cli m log st)
  | None => Exit (LoopBreak packet) (with_cli m log st)
  end.

(** The [for] loop of [Query]: one event of [script] per iteration. *)
Fixpoint Query_loop (pool : list string) (reqpacket : list byte)
    (start_indice : Z) (script : list net_event) (st : state)
    : option (loop_result * state) :=
  match script with
  | [] => None
  | ev :: script' =>
      match Query_iter pool reqpacket start_indice ev st with
      | Continue st' => Query_loop pool reqpacket start_indice script' st'
      | Exit r st' => Some (r, st')
      end
  end.

Inductive outcome : Type :=
| Returned (servers : option (list Server)) (err : option error)
| Panicked (msg : string).

(** [Query].  [byteOrder] and [pool] are the package variables
    [byteOrder] and [MasterSourceServers]. *)
Definition Query (byteOrder : ByteOrder) (pool : list string)
    (script : list net_event) (st : state) (at_ : string)
    : option (outcome * state) :=
  let reqpacket := makerequest (cli st) at_ in
  let start_indice := master_index (cli st) in
  match Query_loop pool reqpacket start_indice script st with
  | None => None
  | Some (LoopReturn e, st) => Some (Returned None (Some e), st)
  | Some (LoopPanic msg, st) => Some (Panicked msg, st)
  | Some (LoopBreak packet, st) =>
      match Decode byteOrder wireMasterResponse_zero packet with
      | Panic msg => Some (Panicked msg, st)
      | Ok (resp, _, Some err) => Some (Returned None (Some err), st)
      | Ok (resp, _, None) =>
          let servers :=
            map (fun ip => {| iserver_addr := wireIP_String ip |})
                (ips resp) in
          Some (Returned (Some servers) None, st)
      end
  end.

(** A client fresh from [NewMasterServer] with the package variables at
    their initial values. *)
Definition fresh (f : Filter) : state :=
  {| cli := {| filter := f; addr := "208.64.200.117:27011";
               master_index := 2; region := USWest;
               remoteAddr := None; remoteConn := None |};
     favored_server := favored_server_init;
     attempts := [] |}.

Definition no_filter : Filter := {| GetFilterFormat := [] |}.

(** * Properties *)

(** ** Request encoding *)

(** C4. For every region byte, starting address and filter token, the
    encoded request is the byte 0x31, the region byte, the bytes of the
    starting address, one 0x00 byte and then the filter token as it is;
    for region 0x01, start address "0.0.0.0:0" and an empty token this is
    0x31 0x01 "0.0.0.0:0" 0x00. *)
Theorem makerequest_layout :
  forall (m : master) (s : string),
    makerequest m s =
      [x31; region m] ++ list_byte_of_string s ++ [x00]
        ++ GetFilterFormat (filter m)
    /\ makerequest (SetRegion USWest (SetFilter no_filter m)) "0.0.0.0:0" =
         [x31; x01] ++ list_byte_of_string "0.0.0.0:0" ++ [x00].
Proof.
  intros m s; split.
  - unfold makerequest, Buffer.Bytes, Buffer.WriteString, Buffer.WriteByte,
      Buffer.NewBuffer.
    rewrite list_byte_of_string_of_list_byte.
    cbn [app]. rewrite <- !app_assoc. reflexivity.
  - reflexivity.
Qed.

(** ** Response decoding *)

Definition reflect_panic : string :=
  "reflect: reflect.Value.SetUint using value obtained using unexported field".

Lemma io_ReadFull_enough :
  forall (packet : list byte) (k : nat),
    (k <= List.length packet)%nat ->
    io_ReadFull packet k = inl (firstn k packet, skipn k packet).
Proof.
  intros packet k H. unfold io_ReadFull.
  destruct (Nat.leb_spec k (List.length packet)); [reflexivity | lia].
Qed.

Lemma io_ReadFull_short :
  forall (packet : list byte) (k : nat),
    (List.length packet < k)%nat ->
    io_ReadFull packet k =
      inr (match packet with [] => EOF | _ :: _ => ErrUnexpectedEOF end).
Proof.
  intros packet k H. unfold io_ReadFull.
  destruct (Nat.leb_spec k (List.length packet)); [lia |].
  destruct packet; reflexivity.
Qed.

(** As soon as the six header bytes are there, [Decode] does not come
    back: the store into [head.magic] panics. *)
Lemma Decode_with_header_panics :
  forall (bo : ByteOrder) (r : wireMasterResponse) (packet : list byte),
    (masterRespHeaderLength <= List.length packet)%nat ->
    Decode bo r packet = Panic reflect_panic.
Proof.
  intros bo r packet H. unfold Decode, binary_Read_head.
  rewrite io_ReadFull_enough by exact H. reflexivity.
Qed.

(** A packet shorter than the header is reported as a read error and the
    receiver is left as it was. *)
Lemma Decode_short_packet :
  forall (bo : ByteOrder) (r : wireMasterResponse) (packet : list byte),
    (List.length packet < masterRespHeaderLength)%nat ->
    Decode bo r packet =
      Ok (r, [], Some (match packet with
                       | [] => EOF
                       | _ :: _ => ErrUnexpectedEOF
                       end)).
Proof.
  intros bo r packet H. unfold Decode, binary_Read_head.
  rewrite io_ReadFull_short by exact H. reflexivity.
Qed.

(** [Decode] never touches [ips]. *)
Lemma Decode_leaves_ips :
  forall (bo : ByteOrder) (r r' : wireMasterResponse)
         (packet rest : list byte) (e : option error),
    Decode bo r packet = Ok (r', rest, e) -> ips r' = ips r.
Proof.
  intros bo r r' packet rest e. unfold Decode, binary_Read_head.
  destruct (io_ReadFull packet masterRespHeaderLength) as [[bs tl_]|err];
    cbn; intros H; [discriminate | now inversion H].
Qed.

(** The header followed by the record C0 A8 01 01 6A 3D
    (192.168.1.1, port 0x6A3D = 27197 in network byte order). *)
Definition one_record_response : list byte :=
  masterResponseHeader ++ [xc0; xa8; x01; x01; x6a; x3d].

(** The header followed by half a record. *)
Definition truncated_response : list byte :=
  masterResponseHeader ++ [xc0; xa8; x01].

(** C1. A response made of the header and one complete record should
    decode to the one address 192.168.1.1:27197; on the code, [Decode]
    panics on it, and so does [Query] when the first answer is that
    datagram: no address is produced. *)
Theorem Decode_one_record_no_address :
  forall (bo : ByteOrder) (f : Filter),
    Decode bo wireMasterResponse_zero one_record_response
      = Panic reflect_panic
    /\ exists st',
         Query bo MasterSourceServers [Datagram one_record_response]
               (fresh f) Beggining
           = Some (Panicked reflect_panic, st').
Proof.
  intros bo f; split.
  - apply Decode_with_header_panics. apply Nat.leb_le. reflexivity.
  - eexists. unfold Query. cbn. reflexivity.
Qed.

(** C3. A response that ends in the middle of a record should be
    reported as a malformed response; on the code, [Decode] panics on it
    instead of returning an error. *)
Theorem Decode_truncated_record_no_error :
  forall (bo : ByteOrder),
    Decode bo wireMasterResponse_zero truncated_response
      = Panic reflect_panic
    /\ forall r rest e,
         Decode bo wireMasterResponse_zero truncated_response
           <> Ok (r, rest, Some e).
Proof.
  intros bo.
  assert (H : Decode bo wireMasterResponse_zero truncated_response
              = Panic reflect_panic)
    by (apply Decode_with_header_panics; apply Nat.leb_le; reflexivity).
  split; [exact H |]. intros r rest e. rewrite H. discriminate.
Qed.

(** C7. A response made of the six header bytes alone should decode
    without error to zero addresses; on the code, [Decode] panics on it,
    and [Query] panics instead of returning an empty list. *)
Theorem Decode_header_only_panics :
  forall (bo : ByteOrder) (f : Filter),
    Decode bo wireMasterResponse_zero masterResponseHeader
      = Panic reflect_panic
    /\ exists st',
         Query bo MasterSourceServers [Datagram masterResponseHeader]
               (fresh f) Beggining
           = Some (Panicked reflect_panic, st').
Proof.
  intros bo f; split.
  - apply Decode_with_header_panics. apply Nat.leb_le. reflexivity.
  - eexists. unfold Query. cbn. reflexivity.
Qed.

(** ** One transaction *)

(** [try] touches nothing but the two connection handles. *)
Lemma try_frame :
  forall (ev : net_event) (m m' : master) (req p : list byte)
         (e : option error),
    try ev m req = (m', e, p) ->
    filter m' = filter m /\ addr m' = addr m /\
    master_index m' = master_index m /\ region m' = region m.
Proof.
  intros ev m m' req p e. unfold try, refreshConnection.
  destruct (needs_refresh m);
    destruct ev as [|[] msg|data]; cbn; intros H; inversion H; subst; cbn;
    repeat split; reflexivity.
Qed.

(** The timeout sentinel comes from the timer and from nowhere else. *)
Lemma try_timeout_inv :
  forall (ev : net_event) (m m' : master) (req p : list byte),
    try ev m req = (m', Some err_timeout, p) -> ev = TimerFires.
Proof.
  intros ev m m' req p. unfold try, refreshConnection.
  destruct (needs_refresh m);
    destruct ev as [|[] msg|data]; cbn; intros H; inversion H; reflexivity.
Qed.

Lemma try_TimerFires :
  forall (m : master) (req : list byte),
    exists m', try TimerFires m req = (m', Some err_timeout, []).
Proof.
  intros m req. unfold try, refreshConnection.
  destruct (needs_refresh m); eexists; reflexivity.
Qed.

(** ** The failover loop *)

Definition same_config (m m' : master) : Prop :=
  region m' = region m /\ filter m' = filter m.

Lemma Query_iter_frame :
  forall pool req start ev st,
    match Query_iter pool req start ev st with
    | Continue st' | Exit _ st' => same_config (cli st) (cli st')
    end.
Proof.
  intros pool req start ev st. unfold Query_iter, same_config.
  destruct (try ev (cli st) req) as [[m e] p] eqn:Ht.
  apply try_frame in Ht. destruct Ht as (Hf & _ & _ & Hr).
  destruct e as [[]|]; cbn; try (split; assumption).
  destruct (Z.of_nat (List.length pool) =? 0); cbn; [split; assumption |].
  destruct (index pool _); cbn; [| split; assumption].
  destruct (_ =? start); cbn; split; assumption.
Qed.

Lemma Query_loop_frame :
  forall pool req start script st r st',
    Query_loop pool req start script st = Some (r, st') ->
    same_config (cli st) (cli st').
Proof.
  intros pool req start script.
  induction script as [|ev script IH]; intros st r st' H; [discriminate |].
  cbn [Query_loop] in H.
  pose proof (Query_iter_frame pool req start ev st) as Hi.
  destruct (Query_iter pool req start ev st) as [st1|r1 st1].
  - apply IH in H. unfold same_config in *. intuition congruence.
  - inversion H; subst. exact Hi.
Qed.

(** [Query] is its loop followed by the decoding of the answer. *)
Lemma Query_inv :
  forall bo pool script st at_ out st',
    Query bo pool script st at_ = Some (out, st') ->
    exists r,
      Query_loop pool (makerequest (cli st) at_) (master_index (cli st))
                 script st = Some (r, st')
      /\ match r with
         | LoopReturn e => out = Returned None (Some e)
         | LoopPanic msg => out = Panicked msg
         | LoopBreak packet =>
             match Decode bo wireMasterResponse_zero packet with
             | Panic msg => out = Panicked msg
             | Ok (_, _, Some err) => out = Returned None (Some err)
             | Ok (resp, _, None) =>
                 out = Returned
                         (Some (map (fun ip =>
                                       {| iserver_addr := wireIP_String ip |})
                                    (ips resp))) None
             end
         end.
Proof.
  intros bo pool script st at_ out st'. unfold Query.
  destruct (Query_loop _ _ _ script st) as [[r st1]|]; [| discriminate].
  destruct r as [e|packet|msg].
  - intros H; inversion H; subst. eexists; split; [reflexivity |]. reflexivity.
  - destruct (Decode bo wireMasterResponse_zero packet)
      as [[[resp rest] [err|]]|msg] eqn:Hd;
      intros H; inversion H; subst;
      (eexists; split; [reflexivity |]); cbn; rewrite Hd; reflexivity.
  - intros H; inversion H; subst. eexists; split; [reflexivity |]. reflexivity.
Qed.

(** C10. Whatever the starting address and however the call ends (a
    list, the timeout after a full cycle, a transport or decoding error,
    even a panic), the region and the filter of the client after [Query]
    are those it had before. *)
Theorem Query_keeps_region_and_filter :
  forall (bo : ByteOrder) (pool : list string) (script : list net_event)
         (st st' : state) (at_ : string) (out : outcome),
    Query bo pool script st at_ = Some (out, st') ->
    region (cli st') = region (cli st) /\ filter (cli st') = filter (cli st).
Proof.
  intros bo pool script st st' at_ out H.
  apply Query_inv in H. destruct H as (r & Hloop & _).
  apply Query_loop_frame in Hloop. exact Hloop.
Qed.

Lemma Query_keeps_region_and_filter_witness :
  exists st',
    Query BigEndian MasterSourceServers [TimerFires; StageFails Read "refused"]
          (fresh no_filter) Beggining
      = Some (Returned None (Some (NetError "refused")), st')
    /\ region (cli st') = USWest /\ filter (cli st') = no_filter.
Proof.
  eexists. split; [reflexivity |].
  apply (Query_keeps_region_and_filter
           BigEndian MasterSourceServers
           [TimerFires; StageFails Read "refused"]
           (fresh no_filter) _ Beggining
           (Returned None (Some (NetError "refused")))).
  reflexivity.
Defined.

(** C8. Whenever [Query] returns a non-nil error, be it the timeout after
    the full cycle, a transport error or a decoding error, the address
    list returned with it is nil. *)
Theorem Query_error_means_nil_servers :
  forall (bo : ByteOrder) (pool : list string) (script : list net_event)
         (st st' : state) (at_ : string)
         (servers : option (list Server)) (e : error),
    Query bo pool script st at_ = Some (Returned servers (Some e), st') ->
    servers = None.
Proof.
  intros bo pool script st st' at_ servers e H.
  apply Query_inv in H. destruct H as (r & _ & Hr).
  destruct r as [e1|packet|msg].
  - now inversion Hr.
  - destruct (Decode bo wireMasterResponse_zero packet)
      as [[[resp rest] [err|]]|msg]; try discriminate.
    now inversion Hr.
  - discriminate.
Qed.

Lemma Query_error_means_nil_servers_witness :
  exists servers st',
    Query BigEndian MasterSourceServers [Datagram [xff; xff; xff]]
          (fresh no_filter) Beggining
      = Some (Returned servers (Some ErrUnexpectedEOF), st')
    /\ servers = None.
Proof.
  eexists. eexists. split; [reflexivity |].
  eapply (Query_error_means_nil_servers
            BigEndian MasterSourceServers [Datagram [xff; xff; xff]]
            (fresh no_filter) _ Beggining None ErrUnexpectedEOF).
  reflexivity.
Defined.

(** C6. When an attempt ends with an error other than the timeout
    sentinel (a failed resolution or dial, a failed write or read), the
    loop returns that very error right after the attempt: one more call
    of [try] is on record and no further one, and the pool index, the
    target address and the shared preferred index are as before the
    attempt.  [Query] hands the error on with a nil list. *)
Theorem Query_other_error_returns_at_once :
  forall (pool : list string) (req : list byte) (start : Z)
         (ev : net_event) (rest : list net_event) (st : state)
         (m : master) (e : error) (p : list byte),
    try ev (cli st) req = (m, Some e, p) ->
    e <> err_timeout ->
    exists st' a,
      Query_loop pool req start (ev :: rest) st = Some (LoopReturn e, st')
      /\ attempts st' = attempts st ++ [a]
      /\ master_index (cli st') = master_index (cli st)
      /\ addr (cli st') = addr (cli st)
      /\ favored_server st' = favored_server st
      /\ forall (bo : ByteOrder) (at_ : string),
           req = makerequest (cli st) at_ ->
           start = master_index (cli st) ->
           Query bo pool (ev :: rest) st at_
             = Some (Returned None (Some e), st').
Proof.
  intros pool req start ev rest st m e p Ht Hne.
  pose proof (try_frame _ _ _ _ _ _ Ht) as (_ & Ha & Hi & _).
  assert (Hiter : Query_iter pool req start ev st
                  = Exit (LoopReturn e)
                      (with_cli m
                         (attempts st ++
                          [{| att_index := master_index (cli st);
                              att_addr := addr (cli st);
                              att_conn := remoteConn m;
                              att_request := req |}]) st)).
  { unfold Query_iter. rewrite Ht.
    destruct e; [contradiction | reflexivity ..]. }
  eexists. eexists. cbn [Query_loop]. rewrite Hiter.
  split; [reflexivity |].
  cbn [attempts cli with_cli favored_server].
  split; [reflexivity |]. repeat (split; [assumption || reflexivity |]).
  intros bo at_ -> ->. unfold Query. cbn [Query_loop].
  rewrite Hiter. reflexivity.
Qed.

Lemma Query_other_error_returns_at_once_witness :
  exists st' a,
    Query_loop MasterSourceServers
      (makerequest (cli (fresh no_filter)) Beggining) 2
      [StageFails Write "refused"; TimerFires] (fresh no_filter)
      = Some (LoopReturn (NetError "refused"), st')
    /\ attempts st' = attempts (fresh no_filter) ++ [a]
    /\ master_index (cli st') = master_index (cli (fresh no_filter))
    /\ addr (cli st') = addr (cli (fresh no_filter))
    /\ favored_server st' = favored_server (fresh no_filter)
    /\ forall (bo : ByteOrder) (at_ : string),
         makerequest (cli (fresh no_filter)) Beggining
           = makerequest (cli (fresh no_filter)) at_ ->
         2 = master_index (cli (fresh no_filter)) ->
         Query bo MasterSourceServers
               [StageFails Write "refused"; TimerFires]
               (fresh no_filter) at_
           = Some (Returned None (Some (NetError "refused")), st').
Proof.
  apply (Query_other_error_returns_at_once
           MasterSourceServers
           (makerequest (cli (fresh no_filter)) Beggining) 2
           (StageFails Write "refused")
           [TimerFires] (fresh no_filter)
           (set_remoteConn (Some "208.64.200.117:27011"%string)
              (set_remoteAddr (Some "208.64.200.117:27011"%string)
                 (cli (fresh no_filter))))
           (NetError "refused") []).
  - reflexivity.
  - discriminate.
Defined.

(** ** Walking the pool *)

Lemma wrap_int_small :
  forall z : Z, - 2 ^ 63 <= z < 2 ^ 63 -> wrap_int z = z.
Proof.
  intros z H. unfold wrap_int.
  rewrite Z.mod_small by lia. lia.
Qed.

Lemma index_in_range :
  forall (A : Type) (l : list A) (i : Z),
    0 <= i < Z.of_nat (List.length l) -> exists a, index l i = Some a.
Proof.
  intros A l i H. unfold index.
  destruct (Z.ltb_spec i 0); [lia |].
  destruct (Z.leb_spec (Z.of_nat (List.length l)) i); [lia |]. cbn.
  destruct (nth_error l (Z.to_nat i)) eqn:Hn; [eexists; reflexivity |].
  apply nth_error_None in Hn. lia.
Qed.

(** The index computed on a timeout is the next one, wrapping at the end
    of the pool. *)
Lemma next_index :
  forall (len i : Z),
    0 < len < 2 ^ 63 -> 0 <= i < len ->
    Z.rem (wrap_int (i + 1)) len = (i + 1) mod len.
Proof.
  intros len i Hlen Hi.
  rewrite wrap_int_small by lia.
  apply Z.rem_mod_nonneg; lia.
Qed.

(** C5 (as the code has it). When an attempt times out, the pool index of
    the client moves to the next pool entry, wrapping at the end of the
    pool, and the target address becomes that entry.  If the new index
    differs from the index the call started from, it is stored as the
    shared preferred index, the resolved address is dropped and the loop
    goes on; if it equals the starting index, the loop returns the
    timeout error and the shared preferred index stays as it was. *)
Theorem Query_timeout_advances_index :
  forall (pool : list string) (req : list byte) (start : Z)
         (ev : net_event) (st : state) (m : master) (p : list byte),
    try ev (cli st) req = (m, Some err_timeout, p) ->
    0 < Z.of_nat (List.length pool) < 2 ^ 63 ->
    0 <= master_index (cli st) < Z.of_nat (List.length pool) ->
    exists st1,
      master_index (cli st1)
        = (master_index (cli st) + 1) mod Z.of_nat (List.length pool)
      /\ index pool (master_index (cli st1)) = Some (addr (cli st1))
      /\ if master_index (cli st1) =? start
         then Query_iter pool req start ev st
                = Exit (LoopReturn err_timeout) st1
              /\ favored_server st1 = favored_server st
         else Query_iter pool req start ev st = Continue st1
              /\ favored_server st1 = master_index (cli st1)
              /\ remoteAddr (cli st1) = None.
Proof.
  intros pool req start ev st m p Ht Hlen Hi.
  pose proof (try_frame _ _ _ _ _ _ Ht) as (_ & _ & Hm & _).
  set (len := Z.of_nat (List.length pool)) in *.
  set (next := (master_index (cli st) + 1) mod len).
  assert (Hnext : 0 <= next < len) by (apply Z.mod_pos_bound; lia).
  destruct (index_in_range _ pool next Hnext) as [a Ha].
  unfold Query_iter. rewrite Ht. fold len.
  destruct (Z.eqb_spec len 0) as [|_]; [lia |].
  cbn [set_master_index master_index].
  rewrite Hm, next_index by lia. fold next. rewrite Ha.
  cbn [set_addr master_index].
  set (log := attempts st ++ _).
  destruct (next =? start) eqn:E.
  - exists (with_cli (set_addr a (set_master_index next m)) log st).
    cbn. rewrite Ha, E. repeat split; reflexivity.
  - exists {| cli := set_remoteAddr None (set_addr a (set_master_index next m));
              favored_server := next; attempts := log |}.
    cbn. rewrite Ha, E. repeat split; reflexivity.
Qed.

Lemma Query_timeout_advances_index_witness :
  exists st1,
    master_index (cli st1)
      = (master_index (cli (fresh no_filter)) + 1)
          mod Z.of_nat (List.length MasterSourceServers)
    /\ index MasterSourceServers (master_index (cli st1))
         = Some (addr (cli st1))
    /\ if master_index (cli st1) =? 2
       then Query_iter MasterSourceServers [] 2 TimerFires (fresh no_filter)
              = Exit (LoopReturn err_timeout) st1
            /\ favored_server st1 = favored_server (fresh no_filter)
       else Query_iter MasterSourceServers [] 2 TimerFires (fresh no_filter)
              = Continue st1
            /\ favored_server st1 = master_index (cli st1)
            /\ remoteAddr (cli st1) = None.
Proof.
  apply (Query_timeout_advances_index
           MasterSourceServers [] 2 TimerFires (fresh no_filter)
           (set_remoteConn (Some "208.64.200.117:27011"%string)
              (set_remoteAddr (Some "208.64.200.117:27011"%string)
                 (cli (fresh no_filter))))
           []).
  - reflexivity.
  - cbn. lia.
  - cbn. lia.
Defined.

(** C5, as stated, fails on the advance that closes the cycle: a fresh
    client whose four attempts all time out ends with its pool index
    moved on from 1 to 2 by the last timeout, while the shared preferred
    index is still 1. *)
Lemma Query_last_advance_not_persisted :
  exists st',
    Query BigEndian MasterSourceServers (repeat TimerFires 4)
          (fresh no_filter) Beggining
      = Some (Returned None (Some err_timeout), st')
    /\ map att_index (attempts st') = [2; 3; 0; 1]
    /\ master_index (cli st') = 2
    /\ favored_server st' = 1
    /\ favored_server st' <> master_index (cli st').
Proof.
  eexists. split; [vm_compute; reflexivity |].
  vm_compute. repeat split; try reflexivity. discriminate.
Qed.

(** ** Coming full circle *)

Lemma Decode_error_kinds :
  forall (bo : ByteOrder) (r r' : wireMasterResponse)
         (packet rest : list byte) (e : error),
    Decode bo r packet = Ok (r', rest, Some e) ->
    e = EOF \/ e = ErrUnexpectedEOF.
Proof.
  intros bo r r' packet rest e. unfold Decode, binary_Read_head, io_ReadFull.
  destruct (masterRespHeaderLength <=? List.length packet)%nat; cbn;
    [discriminate |].
  destruct packet; intros H; inversion H; auto.
Qed.

(** The loop returns the timeout sentinel only from the full-circle
    test, with the index back at [start] and the address set from the
    pool. *)
Lemma Query_iter_timeout_exit :
  forall pool req start ev st st',
    Query_iter pool req start ev st = Exit (LoopReturn err_timeout) st' ->
    master_index (cli st') = start
    /\ index pool start = Some (addr (cli st')).
Proof.
  intros pool req start ev st st'. unfold Query_iter.
  destruct (try ev (cli st) req) as [[m e] p].
  destruct e as [[]|]; try discriminate.
  destruct (Z.of_nat (List.length pool) =? 0); [discriminate |].
  destruct (index pool _) as [a|] eqn:Ha; [| discriminate].
  cbn [set_addr set_master_index master_index] in *.
  destruct (Z.eqb_spec (Z.rem (wrap_int (master_index m + 1))
                              (Z.of_nat (List.length pool))) start)
    as [Heq|]; [| discriminate].
  intros H; inversion H; subst. cbn. split; [reflexivity | exact Ha].
Qed.

Lemma Query_loop_timeout_exit :
  forall pool req start script st st',
    Query_loop pool req start script st
      = Some (LoopReturn err_timeout, st') ->
    master_index (cli st') = start
    /\ index pool start = Some (addr (cli st')).
Proof.
  intros pool req start script.
  induction script as [|ev script IH]; intros st st' H; [discriminate |].
  cbn [Query_loop] in H.
  destruct (Query_iter pool req start ev st) as [st1|r1 st1] eqn:Hi.
  - eapply IH; eassumption.
  - inversion H; subst. eapply Query_iter_timeout_exit; eassumption.
Qed.

(** C9 (as the code has it). When [Query] returns the timeout error, the
    pool index of the client is the one it had when the call began and
    the target address is the pool entry at that index; it is therefore
    the address the call began with whenever that address was the pool
    entry at the client's index. *)
Theorem Query_timeout_restores_index :
  forall (bo : ByteOrder) (pool : list string) (script : list net_event)
         (st st' : state) (at_ : string) (servers : option (list Server)),
    Query bo pool script st at_
      = Some (Returned servers (Some err_timeout), st') ->
    master_index (cli st') = master_index (cli st)
    /\ index pool (master_index (cli st)) = Some (addr (cli st'))
    /\ (index pool (master_index (cli st)) = Some (addr (cli st)) ->
        addr (cli st') = addr (cli st)).
Proof.
  intros bo pool script st st' at_ servers H.
  apply Query_inv in H. destruct H as (r & Hloop & Hr).
  assert (Hr' : r = LoopReturn err_timeout).
  { destruct r as [e|packet|msg].
    - inversion Hr; reflexivity.
    - destruct (Decode bo wireMasterResponse_zero packet)
        as [[[resp rest] [err|]]|msg] eqn:Hd; try discriminate.
      inversion Hr; subst.
      apply Decode_error_kinds in Hd. destruct Hd; discriminate.
    - discriminate. }
  subst r. apply Query_loop_timeout_exit in Hloop.
  destruct Hloop as [Hi Ha].
  split; [exact Hi |]. split; [exact Ha |].
  intros Hs. congruence.
Qed.

Lemma Query_timeout_restores_index_witness :
  exists st',
    Query BigEndian MasterSourceServers (repeat TimerFires 4)
          (fresh no_filter) Beggining
      = Some (Returned None (Some err_timeout), st')
    /\ master_index (cli st') = master_index (cli (fresh no_filter))
    /\ index MasterSourceServers (master_index (cli (fresh no_filter)))
         = Some (addr (cli st'))
    /\ (index MasterSourceServers (master_index (cli (fresh no_filter)))
          = Some (addr (cli (fresh no_filter))) ->
        addr (cli st') = addr (cli (fresh no_filter))).
Proof.
  eexists. split; [vm_compute; reflexivity |].
  apply (Query_timeout_restores_index
           BigEndian MasterSourceServers (repeat TimerFires 4)
           (fresh no_filter) _ Beggining None).
  vm_compute. reflexivity.
Defined.

(** A fresh client pointed at another server with [SetAddr]. *)
Definition redirected : state :=
  with_cli (SetAddr "10.0.0.1:27015" (cli (fresh no_filter))) []
           (fresh no_filter).

(** C9, as stated, fails for a client whose address was set with
    [SetAddr]: after the full cycle of timeouts the address is the pool
    entry at the client's index, not the address the call began with. *)
Lemma Query_timeout_loses_SetAddr :
  exists st',
    Query BigEndian MasterSourceServers (repeat TimerFires 4)
          redirected Beggining
      = Some (Returned None (Some err_timeout), st')
    /\ addr (cli redirected) = "10.0.0.1:27015"%string
    /\ addr (cli st') = "208.64.200.117:27011"%string
    /\ addr (cli st') <> addr (cli redirected).
Proof.
  eexists. split; [vm_compute; reflexivity |].
  vm_compute. repeat split; try reflexivity. discriminate.
Qed.

(** ** A full cycle of timeouts *)

(** One iteration that times out: the attempt is put on record under the
    index the client had, and the loop goes on from a state at the next
    index unless that is where the call started. *)
Lemma Query_iter_TimerFires :
  forall (pool : list string) (req : list byte) (start : Z) (st : state),
    0 < Z.of_nat (List.length pool) < 2 ^ 63 ->
    0 <= master_index (cli st) < Z.of_nat (List.length pool) ->
    exists (st1 : state) (a : attempt),
      att_index a = master_index (cli st)
      /\ attempts st1 = attempts st ++ [a]
      /\ master_index (cli st1)
           = (master_index (cli st) + 1) mod Z.of_nat (List.length pool)
      /\ Query_iter pool req start TimerFires st
           = if master_index (cli st1) =? start
             then Exit (LoopReturn err_timeout) st1
             else Continue
                    {| cli := set_remoteAddr None (cli st1);
                       favored_server := master_index (cli st1);
                       attempts := attempts st1 |}.
Proof.
  intros pool req start st Hlen Hi.
  destruct (try_TimerFires (cli st) req) as [m Ht].
  pose proof (try_frame _ _ _ _ _ _ Ht) as (_ & _ & Hm & _).
  set (len := Z.of_nat (List.length pool)) in *.
  set (next := (master_index (cli st) + 1) mod len).
  assert (Hnext : 0 <= next < len) by (apply Z.mod_pos_bound; lia).
  destruct (index_in_range _ pool next Hnext) as [s Hs].
  set (a := {| att_index := master_index (cli st); att_addr := addr (cli st);
               att_conn := remoteConn m; att_request := req |}).
  exists (with_cli (set_addr s (set_master_index next m))
                   (attempts st ++ [a]) st), a.
  split; [reflexivity |]. split; [reflexivity |]. split; [reflexivity |].
  unfold Query_iter. rewrite Ht. fold len.
  destruct (Z.eqb_spec len 0) as [|_]; [lia |].
  cbn [set_master_index master_index].
  rewrite Hm, next_index by lia. fold next. rewrite Hs.
  reflexivity.
Qed.

Lemma mod4_walk :
  forall i : Z,
    0 <= i < 4 ->
    (i + 0) mod 4 = i
    /\ ((i + 1) mod 4 + 1) mod 4 = (i + 2) mod 4
    /\ ((i + 2) mod 4 + 1) mod 4 = (i + 3) mod 4
    /\ ((i + 3) mod 4 + 1) mod 4 = i
    /\ (i + 1) mod 4 <> i /\ (i + 2) mod 4 <> i /\ (i + 3) mod 4 <> i
    /\ NoDup [i; (i + 1) mod 4; (i + 2) mod 4; (i + 3) mod 4]
    /\ forall j, 0 <= j < 4 ->
                 In j [i; (i + 1) mod 4; (i + 2) mod 4; (i + 3) mod 4].
Proof.
  intros i Hi.
  assert (Hcases : i = 0 \/ i = 1 \/ i = 2 \/ i = 3) by lia.
  destruct Hcases as [-> | [-> | [-> | ->]]];
    repeat match goal with |- _ /\ _ => split end;
    try reflexivity; try (vm_compute; discriminate).
  all: try (repeat (apply NoDup_cons || apply NoDup_nil);
            cbn; intuition discriminate).
  all: intros j Hj; cbn; lia.
Qed.

(** The indices walked in a full cycle.  With a pool of four servers and
    every attempt timing out, [Query] calls [try] exactly four times and
    then returns the timeout error with a nil list.  The pool indices of
    the four calls are the client's index at the start of the call and
    the three that follow it in pool order, wrapping at the end: no index
    comes twice and every pool index comes once.  Events after the fourth
    are never looked at.  Which server each call talks to is another
    matter, taken up further down. *)
Lemma Query_all_timeouts_indices :
  forall (bo : ByteOrder) (pool : list string) (st : state) (at_ : string)
         (rest : list net_event),
    List.length pool = 4%nat ->
    0 <= master_index (cli st) < 4 ->
    exists st' a0 a1 a2 a3,
      Query bo pool (repeat TimerFires 4 ++ rest) st at_
        = Some (Returned None (Some err_timeout), st')
      /\ attempts st' = attempts st ++ [a0; a1; a2; a3]
      /\ map att_index [a0; a1; a2; a3]
           = map (fun k => (master_index (cli st) + k) mod 4) [0; 1; 2; 3]
      /\ NoDup (map att_index [a0; a1; a2; a3])
      /\ forall i, 0 <= i < 4 -> In i (map att_index [a0; a1; a2; a3]).
Proof.
  intros bo pool st at_ rest Hlen Hi.
  set (i := master_index (cli st)) in *.
  set (req := makerequest (cli st) at_).
  assert (Hl : Z.of_nat (List.length pool) = 4) by (rewrite Hlen; reflexivity).
  assert (Hb : 0 < Z.of_nat (List.length pool) < 2 ^ 63) by (rewrite Hl; lia).
  destruct (mod4_walk i Hi)
    as (W0 & W2 & W3 & W4 & N1 & N2 & N3 & Hnd & Hall).
  (* first attempt *)
  destruct (Query_iter_TimerFires pool req i st Hb)
    as (x1 & a0 & I0 & L1 & M1 & E1); [fold i; lia |].
  fold i in M1, I0. rewrite Hl in M1.
  rewrite M1 in E1. rewrite (proj2 (Z.eqb_neq _ _) N1) in E1.
  set (c1 := {| cli := set_remoteAddr None (cli x1);
                favored_server := (i + 1) mod 4;
                attempts := attempts x1 |}) in E1.
  (* second attempt *)
  destruct (Query_iter_TimerFires pool req i c1 Hb)
    as (x2 & a1 & I1 & L2 & M2 & E2);
    [cbn; rewrite M1, Hl; apply Z.mod_pos_bound; lia |].
  cbn [c1 cli set_remoteAddr master_index attempts] in I1, L2, M2.
  rewrite M1 in I1, M2. rewrite Hl, W2 in M2.
  rewrite M2 in E2. rewrite (proj2 (Z.eqb_neq _ _) N2) in E2.
  set (c2 := {| cli := set_remoteAddr None (cli x2);
                favored_server := (i + 2) mod 4;
                attempts := attempts x2 |}) in E2.
  (* third attempt *)
  destruct (Query_iter_TimerFires pool req i c2 Hb)
    as (x3 & a2 & I2 & L3 & M3 & E3);
    [cbn; rewrite M2, Hl; apply Z.mod_pos_bound; lia |].
  cbn [c2 cli set_remoteAddr master_index attempts] in I2, L3, M3.
  rewrite M2 in I2, M3. rewrite Hl, W3 in M3.
  rewrite M3 in E3. rewrite (proj2 (Z.eqb_neq _ _) N3) in E3.
  set (c3 := {| cli := set_remoteAddr None (cli x3);
                favored_server := (i + 3) mod 4;
                attempts := attempts x3 |}) in E3.
  (* fourth attempt: full circle *)
  destruct (Query_iter_TimerFires pool req i c3 Hb)
    as (x4 & a3 & I3 & L4 & M4 & E4);
    [cbn; rewrite M3, Hl; apply Z.mod_pos_bound; lia |].
  cbn [c3 cli set_remoteAddr master_index attempts] in I3, L4, M4.
  rewrite M3 in I3, M4. rewrite Hl, W4 in M4.
  rewrite M4, Z.eqb_refl in E4.
  exists x4, a0, a1, a2, a3.
  split.
  { unfold Query. fold i req.
    change (repeat TimerFires 4 ++ rest)
      with (TimerFires :: TimerFires :: TimerFires :: TimerFires :: rest).
    cbn [Query_loop]. rewrite E1. cbn [Query_loop]. rewrite E2.
    cbn [Query_loop]. rewrite E3. cbn [Query_loop]. rewrite E4.
    reflexivity. }
  split.
  { rewrite L4, L3, L2, L1, <- !app_assoc. reflexivity. }
  assert (Hmap : map att_index [a0; a1; a2; a3]
                 = [i; (i + 1) mod 4; (i + 2) mod 4; (i + 3) mod 4]).
  { cbn [map]. rewrite I0, I1, I2, I3. reflexivity. }
  split.
  { rewrite Hmap. cbn [map]. rewrite W0. reflexivity. }
  rewrite Hmap. split; assumption.
Qed.

(** ** The pool index stays inside the pool *)

Definition index_ok (pool : list string) (st : state) : Prop :=
  0 <= master_index (cli st) < Z.of_nat (List.length pool)
  /\ 0 <= favored_server st < Z.of_nat (List.length pool).

Lemma index_Some_in_range :
  forall (A : Type) (l : list A) (i : Z) (a : A),
    index l i = Some a -> 0 <= i < Z.of_nat (List.length l).
Proof.
  intros A l i a. unfold index.
  destruct (Z.ltb_spec i 0); cbn; [discriminate |].
  destruct (Z.leb_spec (Z.of_nat (List.length l)) i); cbn; [discriminate |].
  intros _. lia.
Qed.

(** A client built by [NewMasterServer] starts at an index of the pool. *)
Lemma NewMasterServer_index_ok :
  forall (pool : list string) (fav : Z) (f : Filter) (m : master),
    NewMasterServer pool fav f = Some m ->
    index_ok pool {| cli := m; favored_server := fav; attempts := [] |}.
Proof.
  intros pool fav f m. unfold NewMasterServer.
  destruct (index pool fav) as [a|] eqn:Ha; [| discriminate].
  intros H; inversion H; subst. apply index_Some_in_range in Ha.
  split; exact Ha.
Qed.

Lemma Query_iter_index_ok :
  forall pool req start ev st,
    index_ok pool st ->
    match Query_iter pool req start ev st with
    | Continue st' | Exit (LoopReturn _) st' | Exit (LoopBreak _) st' =>
        index_ok pool st'
    | Exit (LoopPanic _) _ => True
    end.
Proof.
  intros pool req start ev st [Hm Hf]. unfold Query_iter, index_ok.
  destruct (try ev (cli st) req) as [[m e] p] eqn:Ht.
  apply try_frame in Ht. destruct Ht as (_ & _ & Hi & _).
  destruct e as [[]|]; cbn; try (rewrite Hi; split; assumption).
  destruct (Z.of_nat (List.length pool) =? 0); cbn; [exact I |].
  destruct (index pool _) as [a|] eqn:Ha; cbn; [| exact I].
  apply index_Some_in_range in Ha.
  destruct (_ =? start); cbn; split; assumption.
Qed.

(** [Query] leaves the client and the shared preferred index inside the
    pool whenever it returns. *)
Lemma Query_index_ok :
  forall bo pool script st at_ servers err st',
    index_ok pool st ->
    Query bo pool script st at_ = Some (Returned servers err, st') ->
    index_ok pool st'.
Proof.
  intros bo pool script st at_ servers err st' Hok H.
  apply Query_inv in H. destruct H as (r & Hloop & Hr).
  assert (Hnp : forall msg, r <> LoopPanic msg).
  { intros msg ->. discriminate. }
  clear Hr.
  set (req := makerequest (cli st) at_) in Hloop.
  set (start := master_index (cli st)) in Hloop.
  clearbody req start. revert st Hok Hloop.
  induction script as [|ev script IH]; intros st Hok Hloop; [discriminate |].
  cbn [Query_loop] in Hloop.
  pose proof (Query_iter_index_ok pool req start ev st Hok) as Hi.
  destruct (Query_iter pool req start ev st) as [st1|r1 st1].
  - eapply IH; eassumption.
  - inversion Hloop; subst.
    destruct r; [assumption | assumption | exfalso; eapply Hnp; reflexivity].
Qed.

(** ** The connection kept after a full cycle *)

(** The full-circle return leaves the handles of the last server tried in
    place while the address is reset to the starting entry.  A second
    call on the same client therefore runs its first exchange on the
    connection to the entry before the starting one: the indices walked
    are 2, 3, 0, 1 again, the connections used are those to entries
    1, 3, 0, 1. *)
Remark Query_twice_connections :
  exists st1 st2,
    Query BigEndian MasterSourceServers (repeat TimerFires 4)
          (fresh no_filter) Beggining
      = Some (Returned None (Some err_timeout), st1)
    /\ Query BigEndian MasterSourceServers (repeat TimerFires 4)
             st1 Beggining
         = Some (Returned None (Some err_timeout), st2)
    /\ map att_index (skipn 4 (attempts st2)) = [2; 3; 0; 1]
    /\ map att_conn (skipn 4 (attempts st2))
         = map (index MasterSourceServers) [1; 3; 0; 1].
Proof.
  eexists. eexists.
  split; [vm_compute; reflexivity |].
  split; [vm_compute; reflexivity |].
  split; vm_compute; reflexivity.
Qed.

(** * Further properties of the client *)

(** ** Short responses *)

(** A packet shorter than the six-byte header makes [Decode] return a read
    error, [io.EOF] for the empty packet and [io.ErrUnexpectedEOF]
    otherwise; the bytes that were there are consumed by the failed read
    (nothing is left unread) and the receiver is left as it was. *)
Theorem Decode_short_read :
  forall (bo : ByteOrder) (r : wireMasterResponse) (packet : list byte),
    (List.length packet < masterRespHeaderLength)%nat ->
    exists e,
      Decode bo r packet = Ok (r, [], Some e)
      /\ (packet = [] -> e = EOF)
      /\ (packet <> [] -> e = ErrUnexpectedEOF).
Proof.
  intros bo r packet H. unfold Decode, binary_Read_head.
  rewrite io_ReadFull_short by exact H.
  destruct packet as [|b packet]; eexists; (split; [reflexivity |]);
    split; intros H'; congruence.
Qed.

Lemma Decode_short_read_witness :
  (List.length [xff; xff; xff] < masterRespHeaderLength)%nat
  /\ exists e,
       Decode BigEndian wireMasterResponse_zero [xff; xff; xff]
         = Ok (wireMasterResponse_zero, [], Some e)
       /\ ([xff; xff; xff] = [] -> e = EOF)
       /\ ([xff; xff; xff] <> [] -> e = ErrUnexpectedEOF).
Proof.
  assert (H : (List.length [xff; xff; xff] < masterRespHeaderLength)%nat)
    by (apply Nat.ltb_lt; reflexivity).
  split; [exact H |].
  exact (Decode_short_read BigEndian wireMasterResponse_zero
                           [xff; xff; xff] H).
Defined.

(** ** The request can be read back *)

Lemma makerequest_bytes :
  forall (m : master) (s : string),
    makerequest m s =
      x31 :: region m :: list_byte_of_string s
        ++ x00 :: GetFilterFormat (filter m).
Proof.
  intros m s.
  unfold makerequest, Buffer.Bytes, Buffer.WriteString, Buffer.WriteByte,
    Buffer.NewBuffer.
  rewrite list_byte_of_string_of_list_byte.
  cbn [app]. rewrite <- !app_assoc. reflexivity.
Qed.

(** Two byte strings free of the terminator, each followed by the
    terminator and a tail, are equal only piece by piece. *)
Lemma split_at_terminator :
  forall (z : byte) (l1 l2 t1 t2 : list byte),
    ~ In z l1 -> ~ In z l2 ->
    l1 ++ z :: t1 = l2 ++ z :: t2 ->
    l1 = l2 /\ t1 = t2.
Proof.
  intros z l1. induction l1 as [|a l1 IH]; intros l2 t1 t2 H1 H2 H.
  - destruct l2 as [|b l2]; cbn in H.
    + inversion H; auto.
    + inversion H; subst. exfalso. apply H2. left; reflexivity.
  - destruct l2 as [|b l2]; cbn in H.
    + inversion H; subst. exfalso. apply H1. left; reflexivity.
    + inversion H; subst.
      destruct (IH l2 t1 t2) as [-> ->]; auto.
      * intros Hin. apply H1. right; exact Hin.
      * intros Hin. apply H2. right; exact Hin.
Qed.

(** When the starting address holds no zero byte, the request determines
    the region, the starting address and the filter token it was built
    from: the first zero byte after the region ends the address. *)
Theorem makerequest_unambiguous :
  forall (m m' : master) (s s' : string),
    ~ In x00 (list_byte_of_string s) ->
    ~ In x00 (list_byte_of_string s') ->
    makerequest m s = makerequest m' s' ->
    region m = region m' /\ s = s'
    /\ GetFilterFormat (filter m) = GetFilterFormat (filter m').
Proof.
  intros m m' s s' Hs Hs' H.
  rewrite !makerequest_bytes in H. inversion H as [[Hr Hrest]].
  apply split_at_terminator in Hrest; [| assumption | assumption].
  destruct Hrest as [Hl Hf]. split; [reflexivity |]. split; [| exact Hf].
  rewrite <- (string_of_list_byte_of_string s),
          <- (string_of_list_byte_of_string s'), Hl.
  reflexivity.
Qed.

Lemma makerequest_unambiguous_witness :
  ~ In x00 (list_byte_of_string Beggining)
  /\ makerequest (cli (fresh no_filter)) Beggining
       = makerequest (SetAddr "10.0.0.1:27015" (cli (fresh no_filter)))
                     Beggining
  /\ region (cli (fresh no_filter))
       = region (SetAddr "10.0.0.1:27015" (cli (fresh no_filter)))
  /\ Beggining = Beggining
  /\ GetFilterFormat (filter (cli (fresh no_filter)))
       = GetFilterFormat
           (filter (SetAddr "10.0.0.1:27015" (cli (fresh no_filter)))).
Proof.
  assert (Hz : ~ In x00 (list_byte_of_string Beggining)).
  { vm_compute. intuition discriminate. }
  split; [exact Hz |]. split; [reflexivity |].
  apply (makerequest_unambiguous
           (cli (fresh no_filter))
           (SetAddr "10.0.0.1:27015" (cli (fresh no_filter)))
           Beggining Beggining Hz Hz).
  reflexivity.
Defined.

(** Without that condition the request is ambiguous: a zero byte inside
    the address is indistinguishable from the terminator. *)
Lemma makerequest_zero_byte_in_address :
  let m1 := SetFilter {| GetFilterFormat := [] |} (cli (fresh no_filter)) in
  let m2 := SetFilter {| GetFilterFormat := [x62; x00] |}
                      (cli (fresh no_filter)) in
  makerequest m1 (String "a" (String "000" (String "b" EmptyString)))
    = makerequest m2 "a".
Proof. reflexivity. Qed.

(** ** The connection handles *)

(** [refreshConnection] does nothing when both handles are cached.  When
    it returns [nil], both handles are live, and if it had to make them
    they are made from the current target address.  When it returns an
    error, the error is not the timeout sentinel and the resolved address
    is [nil], so that the next call starts over. *)
Theorem refreshConnection_post :
  forall (ev : net_event) (m : master),
    match refreshConnection ev m with
    | (m', None) =>
        needs_refresh m' = false
        /\ (needs_refresh m = false -> m' = m)
        /\ (needs_refresh m = true ->
            remoteAddr m' = Some (addr m) /\ remoteConn m' = Some (addr m))
    | (m', Some e) =>
        e <> err_timeout /\ remoteAddr m' = None
        /\ needs_refresh m = true /\ needs_refresh m' = true
    end.
Proof.
  intros ev m. unfold refreshConnection.
  destruct (needs_refresh m) eqn:Hn.
  - destruct ev as [|[] msg|data]; cbn;
      repeat split; try discriminate; try reflexivity.
  - rewrite Hn. repeat split; try discriminate; reflexivity.
Qed.

(** [try] writes nothing but the two connection handles, and nothing at
    all on a client whose handles are both cached. *)
Theorem try_only_touches_handles :
  forall (ev : net_event) (m m' : master) (req p : list byte)
         (e : option error),
    try ev m req = (m', e, p) ->
    filter m' = filter m /\ addr m' = addr m
    /\ master_index m' = master_index m /\ region m' = region m
    /\ (needs_refresh m = false -> m' = m).
Proof.
  intros ev m m' req p e H.
  pose proof (try_frame _ _ _ _ _ _ H) as (Hf & Ha & Hi & Hr).
  repeat (split; [assumption |]).
  intros Hn. unfold try, refreshConnection in H. rewrite Hn in H.
  destruct ev as [|s msg|data]; inversion H; reflexivity.
Qed.

Lemma try_only_touches_handles_witness :
  try TimerFires (cli (fresh no_filter)) []
    = (set_remoteConn (Some "208.64.200.117:27011"%string)
         (set_remoteAddr (Some "208.64.200.117:27011"%string)
            (cli (fresh no_filter))),
       Some err_timeout, [])
  /\ filter (set_remoteConn (Some "208.64.200.117:27011"%string)
               (set_remoteAddr (Some "208.64.200.117:27011"%string)
                  (cli (fresh no_filter))))
       = filter (cli (fresh no_filter)).
Proof.
  split; [reflexivity |].
  apply (try_only_touches_handles
           TimerFires (cli (fresh no_filter)) _ [] [] (Some err_timeout)).
  reflexivity.
Defined.

(** The events on which the exchange gets as far as its write. *)
Definition reaches_exchange (ev : net_event) : bool :=
  match ev with
  | StageFails Resolve _ | StageFails Dial _ => false
  | _ => true
  end.

(** After [SetAddr], the next transaction runs on a connection to the new
    address, whatever was cached before. *)
Theorem SetAddr_then_try_reconnects :
  forall (ev : net_event) (a : string) (m m' : master) (req p : list byte)
         (e : option error),
    reaches_exchange ev = true ->
    try ev (SetAddr a m) req = (m', e, p) ->
    addr m' = a /\ remoteAddr m' = Some a /\ remoteConn m' = Some a.
Proof.
  intros ev a m m' req p e Hev H. unfold try, refreshConnection in H.
  cbn in H.
  destruct ev as [|[] msg|data]; try discriminate;
    inversion H; subst; cbn; repeat split; reflexivity.
Qed.

Lemma SetAddr_then_try_reconnects_witness :
  exists m',
    reaches_exchange TimerFires = true
    /\ try TimerFires (SetAddr "10.0.0.1:27015" (cli (fresh no_filter))) []
         = (m', Some err_timeout, [])
    /\ addr m' = "10.0.0.1:27015"%string
    /\ remoteAddr m' = Some "10.0.0.1:27015"%string
    /\ remoteConn m' = Some "10.0.0.1:27015"%string.
Proof.
  eexists. split; [reflexivity |]. split; [reflexivity |].
  eapply (SetAddr_then_try_reconnects
            TimerFires "10.0.0.1:27015" (cli (fresh no_filter)) _ [] []
            (Some err_timeout)); reflexivity.
Defined.

(** ** The receive buffer *)

Lemma take_firstn :
  forall (l : list byte) (n : Z), take n l = firstn (Z.to_nat n) l.
Proof.
  induction l as [|b l IH]; intros n; cbn [take].
  - now rewrite firstn_nil.
  - destruct (Z.leb_spec n 0) as [Hn|Hn].
    + replace (Z.to_nat n) with 0%nat by lia. reflexivity.
    + replace (Z.to_nat n) with (S (Z.to_nat (n - 1))) by lia.
      cbn [firstn]. now rewrite IH.
Qed.

Lemma try_datagram_cut :
  forall (data : list byte) (m : master) (req : list byte),
    exists m',
      try (Datagram data) m req = (m', None, take respbuffer_len data)
      /\ (Z.of_nat (List.length data) <= respbuffer_len ->
          take respbuffer_len data = data).
Proof.
  intros data m req. unfold try, refreshConnection.
  destruct (needs_refresh m); eexists; (split; [reflexivity |]);
    intros Hl; rewrite take_firstn; apply firstn_all2; lia.
Qed.

(** ** What every iteration of the loop does *)

(** Every iteration puts exactly one call of [try] on record: made at the
    client's index and address, with the request of the call. *)
Lemma Query_iter_attempts :
  forall pool req start ev st,
    exists a,
      att_index a = master_index (cli st)
      /\ att_addr a = addr (cli st)
      /\ att_request a = req
      /\ match Query_iter pool req start ev st with
         | Continue st' | Exit _ st' => attempts st' = attempts st ++ [a]
         end.
Proof.
  intros pool req start ev st. unfold Query_iter.
  destruct (try ev (cli st) req) as [[m e] p].
  eexists {| att_index := _; att_addr := _; att_conn := _;
             att_request := _ |}.
  split; [reflexivity |]. split; [reflexivity |]. split; [reflexivity |].
  destruct e as [[]|]; cbn; try reflexivity.
  destruct (Z.of_nat (List.length pool) =? 0); cbn; [reflexivity |].
  destruct (index pool _); cbn; [| reflexivity].
  destruct (_ =? start); reflexivity.
Qed.

(** An event other than the timer ends the loop on the spot, and not with
    the timeout sentinel; index, address and shared preferred index stay
    as they are. *)
Lemma Query_iter_not_timer :
  forall pool req start ev st,
    ev <> TimerFires ->
    exists r st',
      Query_iter pool req start ev st = Exit r st'
      /\ r <> LoopReturn err_timeout
      /\ (forall msg, r <> LoopPanic msg)
      /\ master_index (cli st') = master_index (cli st)
      /\ addr (cli st') = addr (cli st)
      /\ favored_server st' = favored_server st.
Proof.
  intros pool req start ev st Hev. unfold Query_iter.
  destruct (try ev (cli st) req) as [[m e] p] eqn:Ht.
  pose proof (try_frame _ _ _ _ _ _ Ht) as (_ & Ha & Hi & _).
  destruct e as [[]|].
  - apply try_timeout_inv in Ht. contradiction.
  - do 2 eexists. split; [reflexivity |]. cbn.
    repeat split; try discriminate; assumption.
  - do 2 eexists. split; [reflexivity |]. cbn.
    repeat split; try discriminate; assumption.
  - do 2 eexists. split; [reflexivity |]. cbn.
    repeat split; try discriminate; assumption.
  - do 2 eexists. split; [reflexivity |]. cbn.
    repeat split; try discriminate; assumption.
Qed.

(** The iteration that times out, in full. *)
Lemma Query_iter_timer :
  forall (pool : list string) (req : list byte) (start : Z) (st : state),
    0 < Z.of_nat (List.length pool) < 2 ^ 63 ->
    0 <= master_index (cli st) < Z.of_nat (List.length pool) ->
    exists (m : master) (s : string),
      let next := (master_index (cli st) + 1) mod Z.of_nat (List.length pool) in
      let a := {| att_index := master_index (cli st);
                  att_addr := addr (cli st);
                  att_conn := remoteConn m; att_request := req |} in
      index pool next = Some s
      /\ region m = region (cli st) /\ filter m = filter (cli st)
      /\ Query_iter pool req start TimerFires st
           = if next =? start
             then Exit (LoopReturn err_timeout)
                       (with_cli (set_addr s (set_master_index next m))
                                 (attempts st ++ [a]) st)
             else Continue
                    {| cli := set_remoteAddr None
                                (set_addr s (set_master_index next m));
                       favored_server := next;
                       attempts := attempts st ++ [a] |}.
Proof.
  intros pool req start st Hlen Hi.
  destruct (try_TimerFires (cli st) req) as [m Ht].
  pose proof (try_frame _ _ _ _ _ _ Ht) as (Hf & _ & Hm & Hr).
  set (len := Z.of_nat (List.length pool)) in *.
  assert (Hnext : 0 <= (master_index (cli st) + 1) mod len < len)
    by (apply Z.mod_pos_bound; lia).
  destruct (index_in_range _ pool _ Hnext) as [s Hs].
  exists m, s. cbv zeta. fold len.
  split; [exact Hs |]. split; [exact Hr |]. split; [exact Hf |].
  unfold Query_iter. rewrite Ht. fold len.
  destruct (Z.eqb_spec len 0) as [|_]; [lia |].
  cbn [set_master_index master_index].
  rewrite Hm, next_index by lia. rewrite Hs.
  reflexivity.
Qed.

(** ** Invariants of the loop *)

Section LoopInvariant.

Variables (pool : list string) (req : list byte) (start : Z).
Variable P : state -> Prop.
Variable Q : loop_result -> state -> Prop.

Hypothesis step :
  forall ev st,
    P st ->
    match Query_iter pool req start ev st with
    | Continue st' => P st'
    | Exit r st' => Q r st'
    end.

Lemma Query_loop_invariant :
  forall script st r st',
    P st ->
    Query_loop pool req start script st = Some (r, st') ->
    Q r st'.
Proof.
  induction script as [|ev script IH]; intros st r st' HP H;
    [discriminate |].
  cbn [Query_loop] in H. pose proof (step ev st HP) as Hs.
  destruct (Query_iter pool req start ev st) as [st1|r1 st1].
  - eapply IH; eassumption.
  - inversion H; subst. exact Hs.
Qed.

End LoopInvariant.

(** The target address is the pool entry at the client's index. *)
Definition addr_ok (pool : list string) (m : master) : Prop :=
  index pool (master_index m) = Some (addr m).

(** Cached handles were made from the target address. *)
Definition conn_ok (m : master) : Prop :=
  match remoteAddr m, remoteConn m with
  | Some a, Some c => a = addr m /\ c = addr m
  | _, _ => True
  end.

(** What holds when the loop is left otherwise than by the full-circle
    return or a panic. *)
Definition settled (P : state -> Prop) (r : loop_result) (st : state)
    : Prop :=
  match r with
  | LoopReturn err_timeout | LoopPanic _ => True
  | LoopReturn _ | LoopBreak _ => P st
  end.

Lemma try_conn_ok :
  forall ev m m' req p e,
    try ev m req = (m', e, p) -> conn_ok m -> conn_ok m'.
Proof.
  intros ev m m' req p e H Hok. unfold try, refreshConnection in H.
  destruct (needs_refresh m) eqn:Hn.
  - destruct ev as [|[] msg|data]; inversion H; subst;
      unfold conn_ok; cbn; auto.
  - destruct ev as [|s msg|data]; inversion H; subst; exact Hok.
Qed.

Lemma Query_iter_addr_ok :
  forall pool req start ev st,
    addr_ok pool (cli st) ->
    match Query_iter pool req start ev st with
    | Continue st' => addr_ok pool (cli st')
    | Exit r st' => (forall msg, r <> LoopPanic msg) -> addr_ok pool (cli st')
    end.
Proof.
  intros pool req start ev st Hok. unfold Query_iter.
  destruct (try ev (cli st) req) as [[m e] p] eqn:Ht.
  apply try_frame in Ht. destruct Ht as (_ & Ha & Hi & _).
  destruct e as [[]|];
    try (intros _; unfold addr_ok in *; cbn; rewrite Hi, Ha; exact Hok).
  destruct (Z.of_nat (List.length pool) =? 0);
    [intros H; exfalso; eapply H; reflexivity |].
  cbn [set_master_index master_index].
  destruct (index pool _) as [a|] eqn:Hidx;
    [| intros H; exfalso; eapply H; reflexivity].
  cbn [set_addr master_index].
  destruct (_ =? start); [intros _ |]; unfold addr_ok; cbn; exact Hidx.
Qed.

Lemma Query_iter_favored :
  forall pool req start ev st,
    favored_server st = master_index (cli st) ->
    match Query_iter pool req start ev st with
    | Continue st' => favored_server st' = master_index (cli st')
    | Exit r st' =>
        settled (fun s => favored_server s = master_index (cli s)) r st'
    end.
Proof.
  intros pool req start ev st Hok. unfold Query_iter.
  destruct (try ev (cli st) req) as [[m e] p] eqn:Ht.
  apply try_frame in Ht. destruct Ht as (_ & _ & Hi & _).
  destruct e as [[]|]; cbn; try congruence.
  destruct (Z.of_nat (List.length pool) =? 0); cbn; [exact I |].
  destruct (index pool _) as [a|]; cbn; [| exact I].
  destruct (_ =? start); cbn; [exact I | reflexivity].
Qed.

Lemma Query_iter_conn_ok :
  forall pool req start ev st,
    conn_ok (cli st) ->
    match Query_iter pool req start ev st with
    | Continue st' => conn_ok (cli st')
    | Exit r st' => settled (fun s => conn_ok (cli s)) r st'
    end.
Proof.
  intros pool req start ev st Hok. unfold Query_iter.
  destruct (try ev (cli st) req) as [[m e] p] eqn:Ht.
  pose proof (try_conn_ok _ _ _ _ _ _ Ht Hok) as Hm.
  destruct e as [[]|]; cbn; try exact Hm.
  destruct (Z.of_nat (List.length pool) =? 0); cbn; [exact I |].
  destruct (index pool _) as [a|]; cbn; [| exact I].
  destruct (_ =? start); cbn; [exact I |].
  unfold conn_ok. cbn. exact I.
Qed.

(** How the result of [Query] reads off the way its loop was left. *)
Lemma Query_settled :
  forall (P : state -> Prop) bo pool script st at_ servers err st',
    Query bo pool script st at_ = Some (Returned servers err, st') ->
    err <> Some err_timeout ->
    (forall r,
        Query_loop pool (makerequest (cli st) at_) (master_index (cli st))
                   script st = Some (r, st') ->
        settled P r st') ->
    P st'.
Proof.
  intros P bo pool script st at_ servers err st' H Hne Hs.
  apply Query_inv in H. destruct H as (r & Hloop & Hr).
  specialize (Hs r Hloop).
  destruct r as [e|packet|msg]; cbn in Hs.
  - destruct e; try exact Hs. inversion Hr; subst. contradiction.
  - exact Hs.
  - discriminate.
Qed.

(** A run used below: one timeout, then a refused read. *)
Definition timeout_then_refused : list net_event :=
  [TimerFires; StageFails Read "refused"].

Definition after_timeout_then_refused : state :=
  {| cli := {| filter := no_filter; addr := "208.64.200.118:27011";
               master_index := 3; region := USWest;
               remoteAddr := Some "208.64.200.118:27011"%string;
               remoteConn := Some "208.64.200.118:27011"%string |};
     favored_server := 3;
     attempts :=
       [ {| att_index := 2; att_addr := "208.64.200.117:27011";
            att_conn := Some "208.64.200.117:27011"%string;
            att_request := makerequest (cli (fresh no_filter)) Beggining |};
         {| att_index := 3; att_addr := "208.64.200.118:27011";
            att_conn := Some "208.64.200.118:27011"%string;
            att_request := makerequest (cli (fresh no_filter)) Beggining |} ]
  |}.

Lemma Query_timeout_then_refused :
  Query BigEndian MasterSourceServers timeout_then_refused
        (fresh no_filter) Beggining
    = Some (Returned None (Some (NetError "refused")),
            after_timeout_then_refused).
Proof. vm_compute. reflexivity. Qed.

(** Whenever [Query] returns, the client's pool index and the shared
    preferred index are indices of the pool, provided they were before
    the call. *)
Theorem Query_keeps_indices_in_pool :
  forall bo pool script st at_ servers err st',
    index_ok pool st ->
    Query bo pool script st at_ = Some (Returned servers err, st') ->
    index_ok pool st'.
Proof.
  intros bo pool script st at_ servers err st' Hok H.
  apply Query_inv in H. destruct H as (r & Hloop & Hr).
  refine (Query_loop_invariant pool _ _ (index_ok pool)
            (fun r s => (forall msg, r <> LoopPanic msg) -> index_ok pool s)
            _ script st r st' Hok Hloop _).
  - intros ev s Hs.
    pose proof (Query_iter_index_ok pool (makerequest (cli st) at_)
                  (master_index (cli st)) ev s Hs) as Hi.
    destruct (Query_iter _ _ _ ev s) as [s1|[e|packet|msg] s1]; auto.
    intros Hnp. exfalso. eapply Hnp. reflexivity.
  - intros msg ->. discriminate.
Qed.

Lemma Query_keeps_indices_in_pool_witness :
  index_ok MasterSourceServers (fresh no_filter)
  /\ index_ok MasterSourceServers after_timeout_then_refused.
Proof.
  assert (H : index_ok MasterSourceServers (fresh no_filter))
    by (repeat split; (reflexivity || (intro; discriminate))).
  split; [exact H |].
  exact (Query_keeps_indices_in_pool
           BigEndian MasterSourceServers timeout_then_refused
           (fresh no_filter) Beggining None (Some (NetError "refused"))
           after_timeout_then_refused H Query_timeout_then_refused).
Defined.

(** If the target address is the pool entry at the client's index before
    [Query], it is so whenever [Query] returns: failover moves address
    and index together. *)
Theorem Query_keeps_addr_in_step_with_index :
  forall bo pool script st at_ servers err st',
    addr_ok pool (cli st) ->
    Query bo pool script st at_ = Some (Returned servers err, st') ->
    addr_ok pool (cli st').
Proof.
  intros bo pool script st at_ servers err st' Hok H.
  apply Query_inv in H. destruct H as (r & Hloop & Hr).
  refine (Query_loop_invariant pool _ _ (fun s => addr_ok pool (cli s))
            (fun r s => (forall msg, r <> LoopPanic msg)
                        -> addr_ok pool (cli s))
            _ script st r st' Hok Hloop _).
  - intros ev s Hs.
    pose proof (Query_iter_addr_ok pool (makerequest (cli st) at_)
                  (master_index (cli st)) ev s Hs) as Hi.
    destruct (Query_iter _ _ _ ev s) as [s1|r1 s1]; exact Hi.
  - intros msg ->. discriminate.
Qed.

Lemma Query_keeps_addr_in_step_with_index_witness :
  addr_ok MasterSourceServers (cli (fresh no_filter))
  /\ addr_ok MasterSourceServers (cli after_timeout_then_refused).
Proof.
  assert (H : addr_ok MasterSourceServers (cli (fresh no_filter)))
    by reflexivity.
  split; [exact H |].
  exact (Query_keeps_addr_in_step_with_index
           BigEndian MasterSourceServers timeout_then_refused
           (fresh no_filter) Beggining None (Some (NetError "refused"))
           after_timeout_then_refused H Query_timeout_then_refused).
Defined.

(** If the shared preferred index equals the client's index before
    [Query], it does so again whenever [Query] returns anything but the
    timeout error: every failover that is followed by another attempt is
    persisted. *)
Theorem Query_persists_the_index_it_settles_on :
  forall bo pool script st at_ servers err st',
    favored_server st = master_index (cli st) ->
    Query bo pool script st at_ = Some (Returned servers err, st') ->
    err <> Some err_timeout ->
    favored_server st' = master_index (cli st').
Proof.
  intros bo pool script st at_ servers err st' Hok H Hne.
  apply (Query_settled (fun s => favored_server s = master_index (cli s))
           bo pool script st at_ servers err st' H Hne).
  intros r Hloop.
  refine (Query_loop_invariant pool _ _
            (fun s => favored_server s = master_index (cli s))
            (settled (fun s => favored_server s = master_index (cli s)))
            _ script st r st' Hok Hloop).
  intros ev s Hs. apply Query_iter_favored. exact Hs.
Qed.

Lemma Query_persists_the_index_it_settles_on_witness :
  favored_server (fresh no_filter) = master_index (cli (fresh no_filter))
  /\ favored_server after_timeout_then_refused
       = master_index (cli after_timeout_then_refused).
Proof.
  split; [reflexivity |].
  apply (Query_persists_the_index_it_settles_on
           BigEndian MasterSourceServers timeout_then_refused
           (fresh no_filter) Beggining None (Some (NetError "refused"))
           after_timeout_then_refused).
  - reflexivity.
  - exact Query_timeout_then_refused.
  - discriminate.
Defined.



(** After the full-circle return this is lost: the address is back at
    the starting entry while the handles are those of the last server
    tried. *)
Lemma Query_full_circle_leaves_stale_connection :
  exists st',
    Query BigEndian MasterSourceServers (repeat TimerFires 4)
          (fresh no_filter) Beggining
      = Some (Returned None (Some err_timeout), st')
    /\ conn_ok (cli (fresh no_filter))
    /\ ~ conn_ok (cli st').
Proof.
  eexists. split; [vm_compute; reflexivity |].
  split; [exact I |]. vm_compute. intros [H _]. discriminate.
Qed.

(** ** The requests of one call *)

Lemma Query_loop_attempts :
  forall pool req start script st r st',
    Query_loop pool req start script st = Some (r, st') ->
    exists a new,
      attempts st' = attempts st ++ a :: new
      /\ att_index a = master_index (cli st)
      /\ att_addr a = addr (cli st)
      /\ Forall (fun x => att_request x = req) (a :: new)
      /\ (List.length (a :: new) <= List.length script)%nat.
Proof.
  intros pool req start script.
  induction script as [|ev script IH]; intros st r st' H; [discriminate |].
  cbn [Query_loop] in H.
  destruct (Query_iter_attempts pool req start ev st)
    as (a & Hi & Ha & Hq & Hatt).
  destruct (Query_iter pool req start ev st) as [st1|r1 st1].
  - destruct (IH _ _ _ H) as (a1 & new1 & E & _ & _ & F & L).
    exists a, (a1 :: new1). rewrite E, Hatt, <- app_assoc.
    split; [reflexivity |]. split; [exact Hi |]. split; [exact Ha |].
    split; [constructor; assumption |]. cbn in *. lia.
  - inversion H; subst. exists a, [].
    split; [exact Hatt |]. split; [exact Hi |]. split; [exact Ha |].
    split; [constructor; [reflexivity | constructor] |]. cbn. lia.
Qed.

(** Whenever [Query] comes back (also by a panic), it has called [try] at
    least once, first at the index and address the client had when the
    call began, and every call carried the one request encoded at the
    start from the region and filter of that moment. *)
Theorem Query_sends_one_request_throughout :
  forall bo pool script st at_ out st',
    Query bo pool script st at_ = Some (out, st') ->
    exists a new,
      attempts st' = attempts st ++ a :: new
      /\ att_index a = master_index (cli st)
      /\ att_addr a = addr (cli st)
      /\ Forall (fun x => att_request x = makerequest (cli st) at_)
                (a :: new)
      /\ (List.length (a :: new) <= List.length script)%nat.
Proof.
  intros bo pool script st at_ out st' H.
  apply Query_inv in H. destruct H as (r & Hloop & _).
  eapply Query_loop_attempts. exact Hloop.
Qed.

Lemma Query_sends_one_request_throughout_witness :
  exists a new,
    attempts after_timeout_then_refused
      = attempts (fresh no_filter) ++ a :: new
    /\ att_index a = master_index (cli (fresh no_filter))
    /\ att_addr a = addr (cli (fresh no_filter))
    /\ Forall (fun x => att_request x
                        = makerequest (cli (fresh no_filter)) Beggining)
              (a :: new)
    /\ (List.length (a :: new) <= List.length timeout_then_refused)%nat.
Proof.
  exact (Query_sends_one_request_throughout
           BigEndian MasterSourceServers timeout_then_refused
           (fresh no_filter) Beggining _ after_timeout_then_refused
           Query_timeout_then_refused).
Defined.

(** ** Walking a pool of any length *)

Lemma mod_next :
  forall a L : Z, 0 < L -> (a mod L + 1) mod L = (a + 1) mod L.
Proof. intros a L HL. apply Z.add_mod_idemp_l. lia. Qed.

Lemma mod_wrap :
  forall s d L : Z,
    0 <= s < L -> 0 <= d <= L ->
    (s + d) mod L = if s + d <? L then s + d else s + d - L.
Proof.
  intros s d L Hs Hd. destruct (Z.ltb_spec (s + d) L) as [H|H].
  - apply Z.mod_small. lia.
  - replace (s + d) with (s + d - L + 1 * L) at 1 by lia.
    rewrite Z.mod_add by lia. apply Z.mod_small. lia.
Qed.

(** The index comes back to where it started after a full turn and not
    before. *)
Lemma mod_away_from_start :
  forall s d L : Z, 0 <= s < L -> 0 < d < L -> (s + d) mod L <> s.
Proof.
  intros s d L Hs Hd. rewrite mod_wrap by lia.
  destruct (s + d <? L); lia.
Qed.

Lemma mod_full_turn :
  forall s L : Z, 0 <= s < L -> (s + L) mod L = s.
Proof.
  intros s L Hs. rewrite mod_wrap by lia.
  destruct (Z.ltb_spec (s + L) L); lia.
Qed.

(** [k] timeouts in a row, short of a full turn, move the loop [k]
    entries ahead. *)
Lemma Query_loop_timeouts :
  forall (pool : list string) (req : list byte) (start : Z)
         (rest : list net_event),
    0 < Z.of_nat (List.length pool) < 2 ^ 63 ->
    0 <= start < Z.of_nat (List.length pool) ->
    forall (k : nat) (j : Z) (st : state),
      0 <= j -> j + Z.of_nat k < Z.of_nat (List.length pool) ->
      master_index (cli st) = (start + j) mod Z.of_nat (List.length pool) ->
      exists stk new,
        Query_loop pool req start (repeat TimerFires k ++ rest) st
          = Query_loop pool req start rest stk
        /\ master_index (cli stk)
             = (start + j + Z.of_nat k) mod Z.of_nat (List.length pool)
        /\ attempts stk = attempts st ++ new
        /\ map att_index new
             = map (fun d => (start + j + Z.of_nat d)
                               mod Z.of_nat (List.length pool)) (seq 0 k)
        /\ (k = 0%nat -> stk = st)
        /\ (k <> 0%nat ->
            favored_server stk = master_index (cli stk)
            /\ remoteAddr (cli stk) = None
            /\ addr_ok pool (cli stk)).
Proof.
  intros pool req start rest Hlen Hstart.
  set (L := Z.of_nat (List.length pool)) in *.
  induction k as [|k IH]; intros j st Hj Hk Hidx.
  - exists st, []. cbn [repeat app seq map].
    split; [reflexivity |]. split; [rewrite Hidx; f_equal; lia |].
    split; [now rewrite app_nil_r |]. split; [reflexivity |].
    split; [reflexivity | congruence].
  - assert (Hin : 0 <= master_index (cli st) < L)
      by (rewrite Hidx; apply Z.mod_pos_bound; lia).
    destruct (Query_iter_timer pool req start st Hlen Hin)
      as (m & s & Hs & _ & _ & Hiter).
    cbv zeta in Hs, Hiter. fold L in Hs, Hiter.
    assert (Hnext : (master_index (cli st) + 1) mod L
                    = (start + (j + 1)) mod L).
    { rewrite Hidx, mod_next by lia. f_equal. lia. }
    rewrite Hnext in Hs, Hiter.
    assert (Hne : ((start + (j + 1)) mod L =? start) = false).
    { apply Z.eqb_neq. apply mod_away_from_start; lia. }
    rewrite Hne in Hiter.
    set (st1 := {| cli := set_remoteAddr None
                            (set_addr s
                               (set_master_index ((start + (j + 1)) mod L) m));
                   favored_server := (start + (j + 1)) mod L;
                   attempts := attempts st ++
                     [{| att_index := master_index (cli st);
                         att_addr := addr (cli st);
                         att_conn := remoteConn m;
                         att_request := req |}] |}) in Hiter.
    destruct (IH (j + 1) st1) as (stk & new & E & Hi & Hatt & Hmap & H0 & Hn0);
      [lia | lia | reflexivity |].
    exists stk, ({| att_index := master_index (cli st);
                    att_addr := addr (cli st);
                    att_conn := remoteConn m;
                    att_request := req |} :: new).
    split.
    { cbn [repeat app Query_loop]. rewrite Hiter. exact E. }
    split.
    { rewrite Hi. f_equal. lia. }
    split.
    { rewrite Hatt. subst st1. cbn [attempts].
      rewrite <- app_assoc. reflexivity. }
    split.
    { cbn [map seq att_index]. f_equal.
      - rewrite Hidx. f_equal. lia.
      - rewrite Hmap, <- seq_shift, map_map.
        apply map_ext. intros d. f_equal. lia. }
    split; [discriminate |]. intros _.
    destruct k as [|k].
    + rewrite (H0 eq_refl). subst st1. cbn.
      split; [reflexivity |]. split; [reflexivity |].
      unfold addr_ok. cbn. exact Hs.
    + apply Hn0. discriminate.
Qed.

(** Failover followed by a transport error.  After [k] timeouts, [k]
    smaller than the pool, an attempt that fails otherwise makes [Query]
    return that error with a nil list; [k + 1] attempts were made, at the
    indices following the starting one in pool order, the client is left
    at the [k]-th next index, and for [k > 0] that index is the shared
    preferred index and the target address is its pool entry. *)
Theorem Query_failover_then_error :
  forall (bo : ByteOrder) (pool : list string) (st : state) (at_ : string)
         (k : nat) (s : stage) (msg : string) (rest : list net_event),
    Z.of_nat (List.length pool) < 2 ^ 63 ->
    0 <= master_index (cli st) < Z.of_nat (List.length pool) ->
    (k < List.length pool)%nat ->
    exists st' new,
      Query bo pool (repeat TimerFires k ++ StageFails s msg :: rest) st at_
        = Some (Returned None (Some (NetError msg)), st')
      /\ attempts st' = attempts st ++ new
      /\ map att_index new
           = map (fun d => (master_index (cli st) + Z.of_nat d)
                             mod Z.of_nat (List.length pool)) (seq 0 (S k))
      /\ master_index (cli st')
           = (master_index (cli st) + Z.of_nat k)
               mod Z.of_nat (List.length pool)
      /\ (k <> 0%nat ->
          favored_server st' = master_index (cli st')
          /\ addr_ok pool (cli st')).
Proof.
  intros bo pool st at_ k s msg rest Hlen Hi Hk.
  set (L := Z.of_nat (List.length pool)) in *.
  set (i := master_index (cli st)) in *.
  set (req := makerequest (cli st) at_).
  destruct (Query_loop_timeouts pool req i (StageFails s msg :: rest)
              ltac:(fold L; lia) Hi k 0 st)
    as (stk & new & E & Hidx & Hatt & Hmap & _ & Hn0);
    [lia | fold L; lia | fold L; fold i; rewrite Z.add_0_r;
                         symmetry; apply Z.mod_small; exact Hi |].
  fold L in Hidx, Hmap. rewrite Z.add_0_r in Hidx.
  destruct (Query_iter_not_timer pool req i (StageFails s msg) stk)
    as (r & st' & Hiter & _ & _ & Hi' & Ha' & Hf'); [discriminate |].
  destruct (Query_iter_attempts pool req i (StageFails s msg) stk)
    as (a & Hai & _ & _ & Hatt').
  rewrite Hiter in Hatt'.
  assert (Hr : r = LoopReturn (NetError msg)).
  { unfold Query_iter in Hiter.
    destruct (try (StageFails s msg) (cli stk) req) as [[m e] p] eqn:Ht.
    unfold try, refreshConnection in Ht.
    destruct (needs_refresh (cli stk)); destruct s;
      inversion Ht; subst; cbn in Hiter; inversion Hiter; reflexivity. }
  subst r.
  exists st', (new ++ [a]).
  split.
  { unfold Query. fold req i. rewrite E. cbn [Query_loop].
    rewrite Hiter. reflexivity. }
  split.
  { rewrite Hatt', Hatt, <- app_assoc. reflexivity. }
  split.
  { rewrite seq_S, !map_app, Hmap. cbn [map]. rewrite Hai, Hidx.
    f_equal. apply map_ext. intros d. f_equal. lia. }
  split; [rewrite Hi'; exact Hidx |].
  intros Hk0. destruct (Hn0 Hk0) as (Hfav & _ & Hok).
  split; [congruence |].
  unfold addr_ok in *. rewrite Hi', Ha'. exact Hok.
Qed.

Lemma Query_failover_then_error_witness :
  exists st' new,
    Query BigEndian MasterSourceServers
          (repeat TimerFires 1 ++ StageFails Read "refused" :: [])
          (fresh no_filter) Beggining
      = Some (Returned None (Some (NetError "refused")), st')
    /\ attempts st' = attempts (fresh no_filter) ++ new
    /\ map att_index new
         = map (fun d => (master_index (cli (fresh no_filter)) + Z.of_nat d)
                           mod Z.of_nat (List.length MasterSourceServers))
               (seq 0 2)
    /\ master_index (cli st')
         = (master_index (cli (fresh no_filter)) + Z.of_nat 1)
             mod Z.of_nat (List.length MasterSourceServers)
    /\ (1%nat <> 0%nat ->
        favored_server st' = master_index (cli st')
        /\ addr_ok MasterSourceServers (cli st')).
Proof.
  apply (Query_failover_then_error
           BigEndian MasterSourceServers (fresh no_filter) Beggining
           1 Read "refused" []).
  - reflexivity.
  - split; [intro; discriminate | reflexivity].
  - apply Nat.ltb_lt. reflexivity.
Defined.

(** Failover followed by a response too short to hold the header.  The
    read error of the decoder is returned as it is with a nil list; no
    other server is tried for it. *)
Theorem Query_failover_then_short_response :
  forall (bo : ByteOrder) (pool : list string) (st : state) (at_ : string)
         (k : nat) (data : list byte) (rest : list net_event),
    Z.of_nat (List.length pool) < 2 ^ 63 ->
    0 <= master_index (cli st) < Z.of_nat (List.length pool) ->
    (k < List.length pool)%nat ->
    (List.length data < masterRespHeaderLength)%nat ->
    exists st' new,
      Query bo pool (repeat TimerFires k ++ Datagram data :: rest) st at_
        = Some (Returned None
                  (Some (match data with
                         | [] => EOF
                         | _ :: _ => ErrUnexpectedEOF
                         end)), st')
      /\ attempts st' = attempts st ++ new
      /\ List.length new = S k
      /\ master_index (cli st')
           = (master_index (cli st) + Z.of_nat k)
               mod Z.of_nat (List.length pool).
Proof.
  intros bo pool st at_ k data rest Hlen Hi Hk Hshort.
  set (L := Z.of_nat (List.length pool)) in *.
  set (i := master_index (cli st)) in *.
  set (req := makerequest (cli st) at_).
  destruct (Query_loop_timeouts pool req i (Datagram data :: rest)
              ltac:(fold L; lia) Hi k 0 st)
    as (stk & new & E & Hidx & Hatt & Hmap & _ & _);
    [lia | fold L; lia | fold L; fold i; rewrite Z.add_0_r;
                         symmetry; apply Z.mod_small; exact Hi |].
  fold L in Hidx. rewrite Z.add_0_r in Hidx.
  destruct (Query_iter_not_timer pool req i (Datagram data) stk)
    as (r & st' & Hiter & _ & _ & Hi' & _ & _); [discriminate |].
  destruct (Query_iter_attempts pool req i (Datagram data) stk)
    as (a & _ & _ & _ & Hatt').
  rewrite Hiter in Hatt'.
  assert (Hr : r = LoopBreak data).
  { unfold Query_iter in Hiter.
    destruct (try_datagram_cut data (cli stk) req) as (m & Ht & Hfit).
    rewrite Ht in Hiter. inversion Hiter; subst. f_equal.
    apply Hfit. unfold respbuffer_len, masterRespHeaderLength in *. lia. }
  subst r.
  exists st', (new ++ [a]).
  split.
  { unfold Query. fold req i. rewrite E. cbn [Query_loop].
    rewrite Hiter. rewrite Decode_short_packet by exact Hshort.
    reflexivity. }
  split.
  { rewrite Hatt', Hatt, <- app_assoc. reflexivity. }
  split.
  { rewrite length_app. cbn [List.length].
    rewrite <- (length_map att_index new), Hmap, length_map, length_seq.
    lia. }
  rewrite Hi'. exact Hidx.
Qed.

Lemma Query_failover_then_short_response_witness :
  exists st' new,
    Query BigEndian MasterSourceServers
          (repeat TimerFires 2 ++ Datagram [xff; xff] :: [])
          (fresh no_filter) Beggining
      = Some (Returned None (Some ErrUnexpectedEOF), st')
    /\ attempts st' = attempts (fresh no_filter) ++ new
    /\ List.length new = 3%nat
    /\ master_index (cli st')
         = (master_index (cli (fresh no_filter)) + Z.of_nat 2)
             mod Z.of_nat (List.length MasterSourceServers).
Proof.
  apply (Query_failover_then_short_response
           BigEndian MasterSourceServers (fresh no_filter) Beggining
           2 [xff; xff] []).
  - reflexivity.
  - split; [intro; discriminate | reflexivity].
  - apply Nat.ltb_lt. reflexivity.
  - apply Nat.ltb_lt. reflexivity.
Defined.

Lemma repeat_S_app :
  forall (A : Type) (x : A) (n : nat) (r : list A),
    repeat x (S n) ++ r = repeat x n ++ x :: r.
Proof.
  intros A x n r. induction n as [|n IH]; [reflexivity |].
  cbn [repeat app] in *. now rewrite IH.
Qed.

Lemma walk_NoDup :
  forall (i L : Z) (n : nat),
    0 <= i < L -> Z.of_nat n <= L ->
    NoDup (map (fun d => (i + Z.of_nat d) mod L) (seq 0 n)).
Proof.
  intros i L n Hi Hn.
  apply NoDup_map_NoDup_ForallPairs; [| apply seq_NoDup].
  intros d1 d2 H1 H2 Heq. apply in_seq in H1, H2.
  rewrite !mod_wrap in Heq by lia.
  destruct (i + Z.of_nat d1 <? L), (i + Z.of_nat d2 <? L); lia.
Qed.

(** The full cycle for a pool of any length.  When as many attempts as
    the pool has entries time out, [Query] makes exactly that many
    attempts, at the index it started from and the following ones in pool
    order, each index once, and returns the timeout error with a nil list;
    the client is back at its starting index with the pool entry of that
    index as its address. *)
Theorem Query_full_cycle :
  forall (bo : ByteOrder) (pool : list string) (st : state) (at_ : string)
         (rest : list net_event),
    Z.of_nat (List.length pool) < 2 ^ 63 ->
    0 <= master_index (cli st) < Z.of_nat (List.length pool) ->
    exists st' new,
      Query bo pool (repeat TimerFires (List.length pool) ++ rest) st at_
        = Some (Returned None (Some err_timeout), st')
      /\ attempts st' = attempts st ++ new
      /\ map att_index new
           = map (fun d => (master_index (cli st) + Z.of_nat d)
                             mod Z.of_nat (List.length pool))
                 (seq 0 (List.length pool))
      /\ NoDup (map att_index new)
      /\ master_index (cli st') = master_index (cli st)
      /\ addr_ok pool (cli st').
Proof.
  intros bo pool st at_ rest Hlen Hi.
  set (L := Z.of_nat (List.length pool)) in *.
  set (i := master_index (cli st)) in *.
  set (req := makerequest (cli st) at_).
  destruct (List.length pool) as [|n] eqn:Hn; [subst L; cbn in Hi; lia |].
  rewrite repeat_S_app.
  assert (HL : L = Z.of_nat n + 1) by (subst L; lia).
  assert (Hb : 0 < Z.of_nat (List.length pool) < 2 ^ 63)
    by (rewrite Hn; fold L; lia).
  assert (Hi' : 0 <= i < Z.of_nat (List.length pool))
    by (rewrite Hn; fold L; exact Hi).
  destruct (Query_loop_timeouts pool req i (TimerFires :: rest)
              Hb Hi' n 0 st)
    as (stk & new & E & Hidx & Hatt & Hmap & _ & _);
    [lia | rewrite Hn; fold L; lia
     | rewrite Hn; fold L; fold i; rewrite Z.add_0_r;
       symmetry; apply Z.mod_small; exact Hi |].
  rewrite Hn in Hidx, Hmap. fold L in Hidx, Hmap.
  rewrite Z.add_0_r in Hidx.
  assert (Hin : 0 <= master_index (cli stk) < Z.of_nat (List.length pool)).
  { rewrite Hidx, Hn. fold L. apply Z.mod_pos_bound. lia. }
  destruct (Query_iter_timer pool req i stk Hb Hin)
    as (m & s & Hs & _ & _ & Hiter).
  cbv zeta in Hs, Hiter. rewrite Hn in Hs, Hiter. fold L in Hs, Hiter.
  assert (Hnext : (master_index (cli stk) + 1) mod L = i).
  { rewrite Hidx, mod_next by lia.
    replace (i + Z.of_nat n + 1) with (i + L) by lia.
    apply mod_full_turn. exact Hi. }
  rewrite Hnext in Hs, Hiter. rewrite Z.eqb_refl in Hiter.
  eexists. exists (new ++ [{| att_index := master_index (cli stk);
                              att_addr := addr (cli stk);
                              att_conn := remoteConn m;
                              att_request := req |}]).
  split.
  { unfold Query. fold req i. rewrite E. cbn [Query_loop].
    rewrite Hiter. reflexivity. }
  cbn [with_cli attempts cli set_addr set_master_index master_index addr].
  assert (Hall : map att_index
                   (new ++ [{| att_index := master_index (cli stk);
                               att_addr := addr (cli stk);
                               att_conn := remoteConn m;
                               att_request := req |}])
                 = map (fun d => (i + Z.of_nat d) mod L) (seq 0 (S n))).
  { rewrite seq_S, !map_app, Hmap. cbn [map att_index]. rewrite Hidx.
    f_equal. apply map_ext. intros d. f_equal. lia. }
  split; [rewrite Hatt, <- app_assoc; reflexivity |].
  split; [exact Hall |].
  split; [rewrite Hall; apply walk_NoDup; [exact Hi | lia] |].
  split; [reflexivity |].
  unfold addr_ok. cbn. exact Hs.
Qed.

Lemma Query_full_cycle_witness :
  exists st' new,
    Query BigEndian MasterSourceServers
          (repeat TimerFires (List.length MasterSourceServers) ++ [])
          (fresh no_filter) Beggining
      = Some (Returned None (Some err_timeout), st')
    /\ attempts st' = attempts (fresh no_filter) ++ new
    /\ map att_index new
         = map (fun d => (master_index (cli (fresh no_filter)) + Z.of_nat d)
                           mod Z.of_nat (List.length MasterSourceServers))
               (seq 0 (List.length MasterSourceServers))
    /\ NoDup (map att_index new)
    /\ master_index (cli st') = master_index (cli (fresh no_filter))
    /\ addr_ok MasterSourceServers (cli st').
Proof.
  apply (Query_full_cycle
           BigEndian MasterSourceServers (fresh no_filter) Beggining []).
  - reflexivity.
  - split; [intro; discriminate | reflexivity].
Defined.

(** ** Query comes back *)

Lemma Query_loop_terminates :
  forall (pool : list string) (req : list byte) (start : Z),
    0 < Z.of_nat (List.length pool) < 2 ^ 63 ->
    0 <= start < Z.of_nat (List.length pool) ->
    forall (n : nat) (script : list net_event) (st : state) (j : Z),
      0 <= j -> j + Z.of_nat n = Z.of_nat (List.length pool) ->
      (1 <= n)%nat ->
      master_index (cli st) = (start + j) mod Z.of_nat (List.length pool) ->
      (n <= List.length script)%nat ->
      exists r st',
        Query_loop pool req start script st = Some (r, st')
        /\ (List.length (attempts st') <= List.length (attempts st) + n)%nat.
Proof.
  intros pool req start Hlen Hstart.
  set (L := Z.of_nat (List.length pool)) in *.
  induction n as [|n IH]; intros script st j Hj Hn H1 Hidx Hs; [lia |].
  destruct script as [|ev script]; [cbn in Hs; lia |].
  cbn [List.length] in Hs. cbn [Query_loop].
  destruct (Query_iter_attempts pool req start ev st)
    as (a & _ & _ & _ & Hatt).
  assert (Hexit : forall r st',
             Query_iter pool req start ev st = Exit r st' ->
             exists r0 st0,
               Some (r, st') = Some (r0, st0)
               /\ (List.length (attempts st0)
                   <= List.length (attempts st) + S n)%nat).
  { intros r st' E. rewrite E in Hatt. exists r, st'.
    split; [reflexivity |]. rewrite Hatt, length_app. cbn. lia. }
  destruct ev as [|s msg|data].
  - assert (Hin : 0 <= master_index (cli st) < L)
      by (rewrite Hidx; apply Z.mod_pos_bound; lia).
    destruct (Query_iter_timer pool req start st Hlen Hin)
      as (m & s & _ & _ & _ & Hiter).
    cbv zeta in Hiter. fold L in Hiter.
    assert (Hnext : (master_index (cli st) + 1) mod L
                    = (start + (j + 1)) mod L).
    { rewrite Hidx, mod_next by lia. f_equal. lia. }
    rewrite Hnext in Hiter.
    destruct (Z.eqb_spec ((start + (j + 1)) mod L) start) as [Heq|Hne].
    + rewrite Hiter. apply Hexit. exact Hiter.
    + assert (Hlt : j + 1 < L).
      { destruct (Z.eq_dec (j + 1) L) as [E|]; [| lia].
        exfalso. apply Hne. rewrite E. apply mod_full_turn. exact Hstart. }
      rewrite Hiter in Hatt |- *.
      match goal with
      | |- context [Query_loop _ _ _ _ ?s1] =>
          destruct (IH script s1 (j + 1)) as (r & st' & E & Hl);
            [lia | lia | lia | reflexivity | lia |]
      end.
      exists r, st'. split; [exact E |].
      cbn [attempts] in Hl, Hatt. rewrite length_app in Hl. cbn in Hl. lia.
  - destruct (Query_iter_not_timer pool req start (StageFails s msg) st)
      as (r & st' & Hiter & _); [discriminate |].
    rewrite Hiter. apply Hexit. exact Hiter.
  - destruct (Query_iter_not_timer pool req start (Datagram data) st)
      as (r & st' & Hiter & _); [discriminate |].
    rewrite Hiter. apply Hexit. exact Hiter.
Qed.

(** The loop of [Query] ends.  For a client whose index is an index of
    the pool, whatever the network does on each attempt, [Query] comes
    back (with a result or a panic of the decoder) once the network has
    answered as many attempts as the pool has entries, and it never makes
    more attempts than that. *)
Theorem Query_terminates :
  forall (bo : ByteOrder) (pool : list string) (script : list net_event)
         (st : state) (at_ : string),
    Z.of_nat (List.length pool) < 2 ^ 63 ->
    0 <= master_index (cli st) < Z.of_nat (List.length pool) ->
    (List.length pool <= List.length script)%nat ->
    exists out st',
      Query bo pool script st at_ = Some (out, st')
      /\ (List.length (attempts st')
          <= List.length (attempts st) + List.length pool)%nat.
Proof.
  intros bo pool script st at_ Hlen Hi Hs.
  destruct (Query_loop_terminates pool (makerequest (cli st) at_)
              (master_index (cli st)) ltac:(lia) Hi
              (List.length pool) script st 0)
    as (r & st' & E & Hl);
    [lia | lia | lia
     | rewrite Z.add_0_r; symmetry; apply Z.mod_small; exact Hi
     | exact Hs |].
  unfold Query. rewrite E.
  destruct r as [e|packet|msg].
  - do 2 eexists. split; [reflexivity | exact Hl].
  - destruct (Decode bo wireMasterResponse_zero packet)
      as [[[resp tl_] [err|]]|msg];
      do 2 eexists; (split; [reflexivity | exact Hl]).
  - do 2 eexists. split; [reflexivity | exact Hl].
Qed.

Lemma Query_terminates_witness :
  exists out st',
    Query BigEndian MasterSourceServers
          [TimerFires; TimerFires; StageFails Dial "unreachable"; TimerFires]
          (fresh no_filter) Beggining
      = Some (out, st')
    /\ (List.length (attempts st')
        <= List.length (attempts (fresh no_filter))
           + List.length MasterSourceServers)%nat.
Proof.
  apply (Query_terminates
           BigEndian MasterSourceServers
           [TimerFires; TimerFires; StageFails Dial "unreachable"; TimerFires]
           (fresh no_filter) Beggining).
  - reflexivity.
  - split; [intro; discriminate | reflexivity].
  - apply Nat.leb_le. reflexivity.
Defined.

(** Outside the pool the full-circle test never fires: a client whose
    index is not an index of the pool fails over through the whole pool
    again and again for as long as the attempts time out. *)
Lemma Query_index_outside_pool_keeps_going :
  Query BigEndian MasterSourceServers (repeat TimerFires 40)
        (with_cli (set_master_index 7 (cli (fresh no_filter))) []
                  (fresh no_filter))
        Beggining
    = None.
Proof. vm_compute. reflexivity. Qed.

(** ** What Query can return *)

Lemma Decode_never_nil :
  forall (bo : ByteOrder) (r r' : wireMasterResponse)
         (packet rest : list byte),
    Decode bo r packet <> Ok (r', rest, None).
Proof.
  intros bo r r' packet rest. unfold Decode, binary_Read_head.
  destruct (io_ReadFull packet masterRespHeaderLength) as [[bs tl_]|e];
    cbn; discriminate.
Qed.

(** [Query] never returns a list.  Each of its returns carries a nil list
    and a non-nil error; an exchange that brings a response leads to a
    read error of the decoder when the response is shorter than the
    header and to the panic of [Decode] otherwise. *)
Theorem Query_never_returns_a_list :
  forall (bo : ByteOrder) (pool : list string) (script : list net_event)
         (st st' : state) (at_ : string)
         (servers : option (list Server)) (err : option error),
    Query bo pool script st at_ = Some (Returned servers err, st') ->
    servers = None /\ err <> None.
Proof.
  intros bo pool script st st' at_ servers err H.
  apply Query_inv in H. destruct H as (r & _ & Hr).
  destruct r as [e|packet|msg].
  - inversion Hr. split; [reflexivity | discriminate].
  - destruct (Decode bo wireMasterResponse_zero packet)
      as [[[resp tl_] [e|]]|msg] eqn:Hd.
    + inversion Hr. split; [reflexivity | discriminate].
    + exfalso. eapply Decode_never_nil. exact Hd.
    + discriminate.
  - discriminate.
Qed.

Lemma Query_never_returns_a_list_witness :
  (None : option (list Server)) = None
  /\ Some (NetError "refused") <> None.
Proof.
  exact (Query_never_returns_a_list
           BigEndian MasterSourceServers timeout_then_refused
           (fresh no_filter) after_timeout_then_refused Beggining
           None (Some (NetError "refused")) Query_timeout_then_refused).
Defined.

(** ** An empty pool *)

(** With an empty pool the first timeout makes [Query] panic on the
    remainder by the pool length, before index, address or shared
    preferred index are written; other outcomes of the attempt do not
    look at the pool. *)
Theorem Query_empty_pool_timeout_panics :
  forall (bo : ByteOrder) (st : state) (at_ : string)
         (rest : list net_event),
    exists st',
      Query bo [] (TimerFires :: rest) st at_
        = Some (Panicked "runtime error: integer divide by zero", st')
      /\ master_index (cli st') = master_index (cli st)
      /\ addr (cli st') = addr (cli st)
      /\ favored_server st' = favored_server st.
Proof.
  intros bo st at_ rest.
  destruct (try_TimerFires (cli st) (makerequest (cli st) at_)) as [m Ht].
  pose proof (try_frame _ _ _ _ _ _ Ht) as (_ & Ha & Hi & _).
  eexists. unfold Query. cbn [Query_loop]. unfold Query_iter.
  rewrite Ht. cbn. split; [reflexivity |]. cbn.
  repeat split; assumption.
Qed.

(** ** New clients *)

(** [NewMasterServer] panics exactly when the shared preferred index is
    not an index of the pool.  Otherwise the client it makes starts at
    that index with the pool entry of that index as its address, region
    [USWest], the filter of [NewFilter] and no connection, so that its
    first transaction resolves and dials that address. *)
Theorem NewMasterServer_spec :
  forall (pool : list string) (fav : Z) (f : Filter),
    (0 <= fav < Z.of_nat (List.length pool) ->
     exists m,
       NewMasterServer pool fav f = Some m
       /\ master_index m = fav /\ addr_ok pool m
       /\ region m = USWest /\ filter m = f
       /\ needs_refresh m = true
       /\ forall req, exists m' e p,
            try TimerFires m req = (m', e, p)
            /\ remoteConn m' = Some (addr m))
    /\ (~ 0 <= fav < Z.of_nat (List.length pool) ->
        NewMasterServer pool fav f = None).
Proof.
  intros pool fav f. unfold NewMasterServer. split.
  - intros H. destruct (index_in_range _ pool fav H) as [a Ha].
    rewrite Ha. eexists. split; [reflexivity |]. cbn.
    repeat split; try reflexivity; try exact Ha.
    intros req. do 3 eexists. split; reflexivity.
  - intros H. destruct (index pool fav) as [a|] eqn:Ha; [| reflexivity].
    apply index_Some_in_range in Ha. contradiction.
Qed.

Lemma Query_iter_settles :
  forall pool req start ev st,
    favored_server st = master_index (cli st) /\ addr_ok pool (cli st) ->
    match Query_iter pool req start ev st with
    | Continue st' =>
        favored_server st' = master_index (cli st') /\ addr_ok pool (cli st')
    | Exit r st' =>
        settled (fun s => favored_server s = master_index (cli s)
                          /\ addr_ok pool (cli s)) r st'
    end.
Proof.
  intros pool req start ev st [Hf Ha].
  pose proof (Query_iter_favored pool req start ev st Hf) as H1.
  pose proof (Query_iter_addr_ok pool req start ev st Ha) as H2.
  destruct (Query_iter pool req start ev st) as [st1|[e|packet|msg] st1];
    cbn in *.
  - split; assumption.
  - destruct e; try exact I; (split; [exact H1 | apply H2; discriminate]).
  - split; [exact H1 | apply H2; discriminate].
  - exact I.
Qed.

(** The next client starts where this one settled.  If the client's index
    is the shared preferred index and its address the pool entry of that
    index, then after a [Query] that returns anything but the timeout
    error, a client made by [NewMasterServer] has the index and the
    address this client ended on. *)
Theorem Query_then_NewMasterServer :
  forall bo pool script st at_ servers err st' (f : Filter),
    favored_server st = master_index (cli st) ->
    addr_ok pool (cli st) ->
    Query bo pool script st at_ = Some (Returned servers err, st') ->
    err <> Some err_timeout ->
    exists m,
      NewMasterServer pool (favored_server st') f = Some m
      /\ master_index m = master_index (cli st')
      /\ addr m = addr (cli st').
Proof.
  intros bo pool script st at_ servers err st' f Hf Ha H Hne.
  assert (Hs : favored_server st' = master_index (cli st')
               /\ addr_ok pool (cli st')).
  { apply (Query_settled
             (fun s => favored_server s = master_index (cli s)
                       /\ addr_ok pool (cli s))
             bo pool script st at_ servers err st' H Hne).
    intros r Hloop.
    refine (Query_loop_invariant pool _ _
              (fun s => favored_server s = master_index (cli s)
                        /\ addr_ok pool (cli s))
              (settled (fun s => favored_server s = master_index (cli s)
                                 /\ addr_ok pool (cli s)))
              _ script st r st' (conj Hf Ha) Hloop).
    intros ev s Hs. apply Query_iter_settles. exact Hs. }
  destruct Hs as [Hf' Ha']. unfold NewMasterServer.
  rewrite Hf'. unfold addr_ok in Ha'. rewrite Ha'.
  eexists. split; [reflexivity |]. split; reflexivity.
Qed.

Lemma Query_then_NewMasterServer_witness :
  exists m,
    NewMasterServer MasterSourceServers
      (favored_server after_timeout_then_refused) no_filter = Some m
    /\ master_index m = master_index (cli after_timeout_then_refused)
    /\ addr m = addr (cli after_timeout_then_refused).
Proof.
  apply (Query_then_NewMasterServer
           BigEndian MasterSourceServers timeout_then_refused
           (fresh no_filter) Beggining None (Some (NetError "refused"))
           after_timeout_then_refused no_filter).
  - reflexivity.
  - reflexivity.
  - exact Query_timeout_then_refused.
  - discriminate.
Defined.

(** After the full-circle return the two part: the client is back at its
    starting index while the shared preferred index is the one before
    it, which is where the next client starts. *)
Lemma full_circle_then_NewMasterServer :
  exists st' m,
    Query BigEndian MasterSourceServers (repeat TimerFires 4)
          (fresh no_filter) Beggining
      = Some (Returned None (Some err_timeout), st')
    /\ NewMasterServer MasterSourceServers (favored_server st') no_filter
         = Some m
    /\ master_index (cli st') = 2 /\ master_index m = 1.
Proof.
  do 2 eexists. split; [vm_compute; reflexivity |].
  split; [vm_compute; reflexivity |]. split; reflexivity.
Qed.

(** ** Which server an attempt talks to *)

Lemma try_conn_used :
  forall ev m m' req p e,
    conn_ok m -> reaches_exchange ev = true ->
    try ev m req = (m', e, p) ->
    remoteConn m' = Some (addr m).
Proof.
  intros ev m m' req p e Hok Hev H. unfold try, refreshConnection in H.
  destruct (needs_refresh m) eqn:Hn.
  - destruct ev as [|[] msg|data]; try discriminate;
      inversion H; subst; reflexivity.
  - assert (m' = m) by (destruct ev as [|s msg|data]; now inversion H).
    subst m'. unfold needs_refresh in Hn. unfold conn_ok in Hok.
    destruct (remoteAddr m), (remoteConn m); try discriminate.
    destruct Hok as [_ ->]. reflexivity.
Qed.

(** An attempt made on a connection to the pool entry its index names. *)
Definition on_its_entry (pool : list string) (a : attempt) : Prop :=
  index pool (att_index a) = Some (att_addr a)
  /\ att_conn a = Some (att_addr a).

(** What the record of an attempt says when the attempt was ended by the
    event [ev]: the target address is the pool entry named by the index
    of the attempt, and if the exchange got as far as its write, it ran
    on a connection made from that address. *)
Definition attempt_ok (pool : list string) (ev : net_event) (a : attempt)
    : Prop :=
  index pool (att_index a) = Some (att_addr a)
  /\ (reaches_exchange ev = true -> att_conn a = Some (att_addr a)).

Lemma Query_loop_on_entries :
  forall pool req start script st r st',
    conn_ok (cli st) -> addr_ok pool (cli st) ->
    Query_loop pool req start script st = Some (r, st') ->
    exists new,
      attempts st' = attempts st ++ new
      /\ Forall2 (attempt_ok pool) (firstn (List.length new) script) new.
Proof.
  intros pool req start script.
  induction script as [|ev script IH]; intros st r st' Hc Ha H;
    [discriminate |].
  cbn [Query_loop] in H.
  pose proof (Query_iter_conn_ok pool req start ev st Hc) as Hc1.
  pose proof (Query_iter_addr_ok pool req start ev st Ha) as Ha1.
  assert (Hatt : exists a,
             attempt_ok pool ev a
             /\ match Query_iter pool req start ev st with
                | Continue s | Exit _ s => attempts s = attempts st ++ [a]
                end).
  { unfold Query_iter.
    destruct (try ev (cli st) req) as [[m e] p] eqn:Ht.
    eexists {| att_index := _; att_addr := _; att_conn := _;
               att_request := _ |}.
    split.
    { split; cbn; [exact Ha |].
      intros Hev. exact (try_conn_used _ _ _ _ _ _ Hc Hev Ht). }
    destruct e as [[]|]; cbn; try reflexivity.
    destruct (Z.of_nat (List.length pool) =? 0); cbn; [reflexivity |].
    destruct (index pool _); cbn; [| reflexivity].
    destruct (_ =? start); reflexivity. }
  destruct Hatt as (a & Hgood & Hatt).
  destruct (Query_iter pool req start ev st) as [st1|r1 st1].
  - destruct (IH st1 r st' Hc1 Ha1 H) as (new & E & F).
    exists (a :: new). rewrite E, Hatt, <- app_assoc.
    split; [reflexivity |]. cbn [List.length firstn].
    constructor; assumption.
  - inversion H; subst. exists [a].
    split; [exact Hatt |]. cbn [List.length firstn].
    constructor; [exact Hgood | constructor].
Qed.

(** For a client whose address is the pool entry of its index and whose
    cached handles, if any, were made from that address: the attempts of
    [Query] are ended by the events of the script, one each and in
    order; every attempt is made with the pool entry of its index as
    target address, and every attempt whose exchange gets as far as its
    write runs on a connection made from that address.  Events [Query]
    does not get to play no part. *)
Theorem Query_attempts_on_their_entries :
  forall bo pool script st at_ out st',
    conn_ok (cli st) -> addr_ok pool (cli st) ->
    Query bo pool script st at_ = Some (out, st') ->
    exists new,
      attempts st' = attempts st ++ new
      /\ Forall2 (attempt_ok pool) (firstn (List.length new) script) new.
Proof.
  intros bo pool script st at_ out st' Hc Ha H.
  apply Query_inv in H. destruct H as (r & Hloop & _).
  eapply Query_loop_on_entries; eassumption.
Qed.

Lemma Query_attempts_on_their_entries_witness :
  exists st',
    Query BigEndian MasterSourceServers
          [TimerFires; StageFails Dial "unreachable"; StageFails Resolve "x"]
          (fresh no_filter) Beggining
      = Some (Returned None (Some (NetError "unreachable")), st')
    /\ exists new,
         attempts st' = attempts (fresh no_filter) ++ new
         /\ Forall2 (attempt_ok MasterSourceServers)
              (firstn (List.length new)
                 [TimerFires; StageFails Dial "unreachable";
                  StageFails Resolve "x"])
              new.
Proof.
  eexists. split; [vm_compute; reflexivity |].
  eapply (Query_attempts_on_their_entries
            BigEndian MasterSourceServers
            [TimerFires; StageFails Dial "unreachable";
             StageFails Resolve "x"]
            (fresh no_filter) Beggining).
  - exact I.
  - reflexivity.
  - vm_compute. reflexivity.
Defined.

(** ** One attempt per pool entry *)

(** C2 (as the code has it). With a pool of four servers, a client whose
    target address is the pool entry at its index and whose cached
    handles, if any, were made from that address, and every attempt
    timing out, [Query] makes exactly four attempts and then returns the
    timeout error with a nil list.  The attempts are made at the client's
    index at the start of the call and the three that follow it in pool
    order, wrapping at the end, no index twice and every index once, and
    each attempt runs on a connection to the pool entry at its index. *)
Theorem Query_all_timeouts_one_per_entry :
  forall (bo : ByteOrder) (pool : list string) (st : state) (at_ : string)
         (rest : list net_event),
    List.length pool = 4%nat ->
    0 <= master_index (cli st) < 4 ->
    addr_ok pool (cli st) ->
    conn_ok (cli st) ->
    exists st' a0 a1 a2 a3,
      Query bo pool (repeat TimerFires 4 ++ rest) st at_
        = Some (Returned None (Some err_timeout), st')
      /\ attempts st' = attempts st ++ [a0; a1; a2; a3]
      /\ map att_index [a0; a1; a2; a3]
           = map (fun k => (master_index (cli st) + k) mod 4) [0; 1; 2; 3]
      /\ NoDup (map att_index [a0; a1; a2; a3])
      /\ (forall i, 0 <= i < 4 -> In i (map att_index [a0; a1; a2; a3]))
      /\ Forall (on_its_entry pool) [a0; a1; a2; a3]
      /\ map att_conn [a0; a1; a2; a3]
           = map (fun k => index pool ((master_index (cli st) + k) mod 4))
                 [0; 1; 2; 3].
Proof.
  intros bo pool st at_ rest Hlen Hi Ha Hc.
  destruct (Query_all_timeouts_indices bo pool st at_ rest Hlen Hi)
    as (st' & a0 & a1 & a2 & a3 & HQ & Hatt & Hmap & Hnd & Hall).
  exists st', a0, a1, a2, a3.
  repeat (split; [assumption |]).
  pose proof HQ as HQ'. apply Query_inv in HQ'.
  destruct HQ' as (r & Hloop & _).
  destruct (Query_loop_on_entries _ _ _ _ _ _ _ Hc Ha Hloop)
    as (new & E & F).
  rewrite Hatt in E. apply app_inv_head in E. subst new.
  cbn [List.length firstn repeat app] in F.
  inversion F as [|e0 b0 l0 l0' [A0 C0] F1]; subst.
  inversion F1 as [|e1 b1 l1 l1' [A1 C1] F2]; subst.
  inversion F2 as [|e2 b2 l2 l2' [A2 C2] F3]; subst.
  inversion F3 as [|e3 b3 l3 l3' [A3 C3] _]; subst.
  specialize (C0 eq_refl). specialize (C1 eq_refl).
  specialize (C2 eq_refl). specialize (C3 eq_refl).
  split.
  { repeat constructor; assumption. }
  cbn [map] in Hmap |- *. inversion Hmap as [[M0 M1 M2 M3]].
  rewrite C0, C1, C2, C3, <- A0, <- A1, <- A2, <- A3.
  rewrite M0, M1, M2, M3. reflexivity.
Qed.

Lemma Query_all_timeouts_one_per_entry_witness :
  exists st' a0 a1 a2 a3,
    Query BigEndian MasterSourceServers (repeat TimerFires 4 ++ [])
          (fresh no_filter) Beggining
      = Some (Returned None (Some err_timeout), st')
    /\ attempts st' = attempts (fresh no_filter) ++ [a0; a1; a2; a3]
    /\ map att_index [a0; a1; a2; a3]
         = map (fun k => (master_index (cli (fresh no_filter)) + k) mod 4)
               [0; 1; 2; 3]
    /\ NoDup (map att_index [a0; a1; a2; a3])
    /\ (forall i, 0 <= i < 4 -> In i (map att_index [a0; a1; a2; a3]))
    /\ Forall (on_its_entry MasterSourceServers) [a0; a1; a2; a3]
    /\ map att_conn [a0; a1; a2; a3]
         = map (fun k => index MasterSourceServers
                           ((master_index (cli (fresh no_filter)) + k) mod 4))
               [0; 1; 2; 3].
Proof.
  apply (Query_all_timeouts_one_per_entry
           BigEndian MasterSourceServers (fresh no_filter) Beggining []).
  - reflexivity.
  - split; [intro; discriminate | reflexivity].
  - reflexivity.
  - exact I.
Defined.

(** C2, as stated, fails for a client pointed elsewhere with [SetAddr]:
    when all four attempts time out, the attempt made at index 2 goes to
    the address that was set, the other three to the pool entries 3, 0
    and 1, and the pool entry at index 2 is never tried. *)
Lemma Query_all_timeouts_after_SetAddr :
  exists st',
    Query BigEndian MasterSourceServers (repeat TimerFires 4)
          redirected Beggining
      = Some (Returned None (Some err_timeout), st')
    /\ map att_index (attempts st') = [2; 3; 0; 1]
    /\ map att_conn (attempts st')
         = [Some "10.0.0.1:27015"; Some "208.64.200.118:27011";
            Some "68.177.101.62:27011"; Some "69.28.158.131:27011"]%string
    /\ index MasterSourceServers 2 = Some "208.64.200.117:27011"%string
    /\ ~ In (index MasterSourceServers 2) (map att_conn (attempts st')).
Proof.
  eexists. split; [vm_compute; reflexivity |].
  split; [vm_compute; reflexivity |].
  split; [vm_compute; reflexivity |].
  split; [reflexivity |].
  vm_compute. intuition discriminate.
Qed.

(** ** Printed addresses *)

Definition is_digit (c : ascii) : Prop :=
  In c ["0"; "1"; "2"; "3"; "4"; "5"; "6"; "7"; "8"; "9"]%char.

Fixpoint all_digits (s : string) : Prop :=
  match s with
  | EmptyString => True
  | String c s' => is_digit c /\ all_digits s'
  end.

Lemma string_of_uint_digits :
  forall d : Decimal.uint, all_digits (NilEmpty.string_of_uint d).
Proof.
  induction d; cbn; try exact I; (split; [| assumption]);
    unfold is_digit; cbn; tauto.
Qed.

Lemma fmt_d_digits : forall n : N, all_digits (fmt_d n).
Proof.
  intros n. unfold fmt_d, NilZero.string_of_uint.
  destruct (N.to_uint n); try apply string_of_uint_digits.
  cbn. split; [unfold is_digit; cbn; tauto | exact I].
Qed.

Lemma to_uint_not_Nil : forall n : N, N.to_uint n <> Decimal.Nil.
Proof.
  intros n H.
  pose proof (DecimalN.Unsigned.to_of (N.to_uint n)) as E.
  rewrite DecimalN.Unsigned.of_to, H in E. discriminate.
Qed.

Lemma fmt_d_inj : forall n n' : N, fmt_d n = fmt_d n' -> n = n'.
Proof.
  intros n n' H. unfold fmt_d in H.
  apply DecimalN.Unsigned.to_uint_inj.
  assert (E : NilZero.uint_of_string (NilZero.string_of_uint (N.to_uint n))
              = NilZero.uint_of_string
                  (NilZero.string_of_uint (N.to_uint n')))
    by now rewrite H.
  rewrite !NilZero.usu in E by apply to_uint_not_Nil.
  now inversion E.
Qed.

(** Two runs of digits, each followed by the same separator and a tail,
    are equal only piece by piece. *)
Lemma split_at_separator :
  forall (c : ascii) (s1 s2 t1 t2 : string),
    ~ is_digit c -> all_digits s1 -> all_digits s2 ->
    (s1 ++ String c t1 = s2 ++ String c t2)%string ->
    s1 = s2 /\ t1 = t2.
Proof.
  intros c s1. induction s1 as [|a s1 IH]; intros s2 t1 t2 Hc H1 H2 H.
  - destruct s2 as [|b s2]; cbn in H.
    + inversion H; auto.
    + inversion H; subst. destruct H2 as [Hb _]. contradiction.
  - destruct s2 as [|b s2]; cbn in H.
    + inversion H; subst. destruct H1 as [Ha _]. contradiction.
    + inversion H; subst. destruct H1 as [_ H1], H2 as [_ H2].
      destruct (IH s2 t1 t2 Hc H1 H2) as [-> ->]; auto.
Qed.

Lemma to_N_inj : forall b b' : byte, Byte.to_N b = Byte.to_N b' -> b = b'.
Proof.
  intros b b' H.
  pose proof (Byte.of_to_N b) as E. rewrite H, Byte.of_to_N in E.
  now inversion E.
Qed.

(** [wireIP.String] prints different wire addresses differently: the
    text determines the four octets and the port field. *)
Theorem wireIP_String_inj :
  forall p q : wireIP, wireIP_String p = wireIP_String q -> p = q.
Proof.
  intros [a1 a2 a3 a4 ap] [b1 b2 b3 b4 bp] H.
  unfold wireIP_String in H. cbn [o1 o2 o3 o4 port] in H.
  assert (Hdot : ~ is_digit ".") by (unfold is_digit; cbn; intuition discriminate).
  assert (Hcol : ~ is_digit ":") by (unfold is_digit; cbn; intuition discriminate).
  change ("." ++ ?x)%string with (String "." x) in H.
  apply split_at_separator in H; try apply fmt_d_digits; [| exact Hdot].
  destruct H as [E1 H].
  apply split_at_separator in H; try apply fmt_d_digits; [| exact Hdot].
  destruct H as [E2 H].
  apply split_at_separator in H; try apply fmt_d_digits; [| exact Hdot].
  destruct H as [E3 H].
  apply split_at_separator in H; try apply fmt_d_digits; [| exact Hcol].
  destruct H as [E4 E5].
  apply fmt_d_inj, to_N_inj in E1, E2, E3, E4. apply fmt_d_inj in E5.
  subst. reflexivity.
Qed.

Lemma wireIP_String_inj_witness :
  wireIP_String {| o1 := xc0; o2 := xa8; o3 := x01; o4 := x01;
                   port := 27013 |}
    = "192.168.1.1:27013"%string
  /\ {| o1 := xc0; o2 := xa8; o3 := x01; o4 := x01; port := 27013 |}
     = {| o1 := xc0; o2 := xa8; o3 := x01; o4 := x01;
          port := 105 * 256 + 133 |}.
Proof.
  split; [reflexivity |].
  apply (wireIP_String_inj
           {| o1 := xc0; o2 := xa8; o3 := x01; o4 := x01; port := 27013 |}
           {| o1 := xc0; o2 := xa8; o3 := x01; o4 := x01;
              port := 105 * 256 + 133 |}).
  reflexivity.
Defined.
